(** * git-search: the query builder and the result renderer of [main.go]

    A shallow embedding of [main.go] (package [main]): the [options]
    struct, [queryString], [shortenLanguage], [printErr] and [exec], with
    the properties of the query string and of a run proved over it.

    Go strings are byte sequences and are modelled as [string]; Go's [int]
    is modelled as [Z] (no arithmetic is done on it, it is only compared
    with 0 and printed); the [map[string]string] of [queryString] is a
    [gmap string string], and ranging over it visits its entries in an
    order the language leaves open, modelled as an arbitrary permutation of
    the entries. *)

From Stdlib Require Import ZArith Ascii DecimalString.
From Stdlib Require DecimalPos DecimalZ.
From stdpp Require Import gmap strings list fin_maps.

Local Open Scope Z_scope.

(** ** Strings *)

Module Str.

(** [prefix p s]: [s] starts with [p] ([strings.HasPrefix]). *)
Fixpoint prefix (p s : string) : bool :=
  match p with
  | EmptyString => true
  | String a p' =>
      match s with
      | EmptyString => false
      | String b s' => if decide (a = b) then prefix p' s' else false
      end
  end.

(** [count p s]: the number of positions of [s] at which [p] starts. *)
Fixpoint count (p s : string) : nat :=
  match s with
  | EmptyString => if prefix p s then 1%nat else 0%nat
  | String _ s' => ((if prefix p s then 1 else 0) + count p s')%nat
  end.

(** [mem c s]: the byte [c] occurs in [s]. *)
Fixpoint mem (c : ascii) (s : string) : bool :=
  match s with
  | EmptyString => false
  | String b s' => if decide (c = b) then true else mem c s'
  end.

(** [suffix p s]: [s] ends with [p] ([strings.HasSuffix]). *)
Fixpoint suffix (p s : string) : bool :=
  if decide (s = p) then true
  else match s with
       | EmptyString => false
       | String _ s' => suffix p s'
       end.

(** [all P s]: every byte of [s] passes [P]. *)
Fixpoint all (P : ascii → bool) (s : string) : bool :=
  match s with
  | EmptyString => true
  | String b s' => P b && all P s'
  end.

(** [join sep l] is [strings.Join(l, sep)]. *)
Fixpoint join (sep : string) (l : list string) : string :=
  match l with
  | [] => ""
  | [x] => x
  | x :: l' => x +:+ sep +:+ join sep l'
  end.

(** [plus sep l]: every element of [l] with [sep] before it. *)
Fixpoint plus (sep : string) (l : list string) : string :=
  match l with
  | [] => ""
  | x :: l' => sep +:+ x +:+ plus sep l'
  end.

(** [split c s] cuts [s] at every byte [c] ([strings.Split] with a
    one-byte separator): the pieces, in order, without the separators. *)
Fixpoint split (c : ascii) (s : string) : list string :=
  match s with
  | EmptyString => [""]
  | String b s' =>
      if decide (b = c) then "" :: split c s'
      else match split c s' with
           | [] => [String b ""]
           | x :: l => String b x :: l
           end
  end.

End Str.

(** [strconv.Itoa]: the decimal digits of an integer, with a leading [-]
    when it is negative. *)
Definition Itoa (n : Z) : string := NilZero.string_of_int (Z.to_int n).

(** ** The options *)

Record posArgs := { Keyword : string }.

Record options := {
  GitHubAPIURI : string;
  Created : string;
  Pushed : string;
  Fork : string;
  Forks : Z;
  InName : bool;
  InDescription : bool;
  InReadme : bool;
  Language : string;
  License : string;
  Org : string;
  Username : string;
  Size : Z;
  Stars : Z;
  Topic : string;
  Archived : bool;
  Sort : string;
  Order : string;
  PosArgs : posArgs
}.

(** The values the flag parser leaves in the struct when no flag is given:
    the [default:] tags of [github-api-uri] and [forks], Go's zero values for
    the rest. *)
Definition defaults : options := {|
  GitHubAPIURI := "https://api.github.com/search";
  Created := ""; Pushed := ""; Fork := ""; Forks := -1;
  InName := false; InDescription := false; InReadme := false;
  Language := ""; License := ""; Org := ""; Username := "";
  Size := 0; Stars := 0; Topic := ""; Archived := false;
  Sort := ""; Order := "";
  PosArgs := {| Keyword := "" |}
|}.

(** ** [queryString] *)

(** The first half of [queryString] is a sequence of statements on the
    map [vals]; a statement is a function from the map before it to the map
    after it. *)
Definition stmt : Type := gmap string string → gmap string string.

(** [vals[k] = v] *)
Definition assign (k v : string) : stmt := λ vals, <[k := v]> vals.

(** [vals[k] += s]; reading a key that is absent gives the empty string. *)
Definition append_to (k s : string) : stmt :=
  λ vals, <[k := default "" (vals !! k) +:+ s]> vals.

(** [_, ok := vals[k]] *)
Definition has_key (k : string) (vals : gmap string string) : bool :=
  bool_decide (is_Some (vals !! k)).

(** [if c { s }] *)
Definition If (c : bool) (s : stmt) : stmt :=
  λ vals, if c then s vals else vals.

(** [if _, ok := vals[k]; ok { s1 } else { s2 }] *)
Definition IfHas (k : string) (s1 s2 : stmt) : stmt :=
  λ vals, if has_key k vals then s1 vals else s2 vals.

(** Statements in sequence. *)
Definition block (l : list stmt) : stmt :=
  λ vals, fold_left (λ m (s : stmt), s m) l vals.

(** The map [vals] as it is when the chain of [if]s has run. *)
Definition vals (o : options) : gmap string string :=
  block [
    If (bool_decide (Created o ≠ "")) (assign "created" (Created o));
    If (bool_decide (Pushed o ≠ "")) (assign "pushed" (Pushed o));
    If (bool_decide (Fork o ≠ "")) (assign "fork" (Fork o));
    If (bool_decide (Forks o >= 0)) (assign "forks" (Itoa (Forks o)));
    If (InName o) (assign "in" "name");
    If (InDescription o)
      (IfHas "in" (append_to "in" ",description") (assign "in" "description"));
    If (InReadme o)
      (IfHas "in" (append_to "in" ",readme") (assign "in" "readme"));
    If (bool_decide (Language o ≠ "")) (assign "language" (Language o));
    If (bool_decide (License o ≠ "")) (assign "license" (License o));
    If (bool_decide (Org o ≠ "")) (assign "org" (Org o));
    If (bool_decide (Username o ≠ "")) (assign "user" (Username o));
    If (bool_decide (Size o > 0)) (assign "size" (Itoa (Size o)));
    If (bool_decide (Stars o > 0)) (assign "stars" (Itoa (Stars o)));
    If (bool_decide (Topic o ≠ "")) (assign "topic" (Topic o));
    If (Archived o) (assign "archived" "true")
  ] ∅.

(** One turn of [for k, v := range vals]: the state is the buffer and
    [isFirst]. *)
Definition write_term (st : string * bool) (kv : string * string) : string * bool :=
  let '(buf, isFirst) := st in
  let '(k, v) := kv in
  let buf := if isFirst then buf else buf +:+ "+" in
  let buf := buf +:+ (k +:+ ":" +:+ v) in
  (buf, false).

(** The body of [queryString] from [buf := bytes.Buffer{}] on, with the
    order [ord] in which the [range] loop visits the entries of [vals]. *)
Definition queryString_at (ord : list (string * string)) (o : options) : string :=
  let buf := "" in
  let isFirst := true in
  let buf :=
    if decide (Keyword (PosArgs o) ≠ "" ∨ size (vals o) ≠ 0%nat)
    then buf +:+ "q=" else buf in
  let '(buf, isFirst) :=
    if decide (Keyword (PosArgs o) ≠ "")
    then (buf +:+ Keyword (PosArgs o), false) else (buf, isFirst) in
  let '(buf, isFirst) := fold_left write_term ord (buf, isFirst) in
  let buf :=
    if decide (Sort o ≠ "") then
      let buf := if decide (String.length buf ≠ 0%nat) then buf +:+ "&" else buf in
      let buf := buf +:+ ("sort=" +:+ Sort o) in
      let buf := if decide (Order o ≠ "") then buf +:+ ("&order=" +:+ Order o) else buf in
      buf
    else buf in
  buf.

(** [range m ord]: [ord] is an order in which a [range] loop may visit the
    entries of [m], each entry once. *)
Definition range (m : gmap string string) (ord : list (string * string)) : Prop :=
  ord ≡ₚ map_to_list m.

(** [queryString o out]: [out] is a string that [opts.queryString()] may
    return. *)
Definition queryString (o : options) (out : string) : Prop :=
  ∃ ord, range (vals o) ord ∧ out = queryString_at ord o.

(** The order of [map_to_list], to run the function. *)
Definition queryString_run (o : options) : string :=
  queryString_at (map_to_list (vals o)) o.

(** ** [shortenLanguage] *)

Definition shortenLanguage (lang : string) : string :=
  if decide (lang = "Emacs Lisp") then "elisp"
  else if decide (lang = "JavaScript") then "JS"
  else if decide (lang = "CoffeeScript") then "Coffee"
  else lang.

(** ** [exec] *)

(** The decoded response: [response.Items]. *)
Module Item.
Record t := {
  License : string;
  Language : string;
  FullName : string;
  Description : string
}.
End Item.

Record response := { Items : list Item.t }.

(** Errors. [flags.Parse] returns a flags error carrying a type, of
    which [exec] only tests [ErrHelp]; the other calls return plain
    errors. [Error] is the method [Error()], the text that [%s] prints. *)
Inductive ErrorType :=
  | ErrUnknown | ErrExpectedArgument | ErrUnknownFlag | ErrUnknownGroup
  | ErrMarshal | ErrHelp | ErrNoArgumentForBool | ErrRequired
  | ErrShortNameTooLong | ErrDuplicatedFlag | ErrTag | ErrCommandRequired
  | ErrUnknownCommand | ErrInvalidChoice | ErrInvalidTag.

Inductive error :=
  | FlagsError (ty : ErrorType) (msg : string)
  | PlainError (msg : string).

Definition Error (e : error) : string :=
  match e with
  | FlagsError _ msg => msg
  | PlainError msg => msg
  end.

(** The test of [exec] on a parse error: the error is a flags error and
    its type is [flags.ErrHelp]. *)
Definition is_help (e : error) : bool :=
  match e with
  | FlagsError ErrHelp _ => true
  | _ => false
  end.

(** What a run meets outside the program: what [flags.Parse] returns for
    the command line, the outcome of [http.Get] on a URI (the bytes of the
    response body, or an error), of the JSON decoder on these bytes, and
    the order in which the runtime ranges over a map. *)
Record world := {
  Parse : options + error;
  Get : string → string + error;
  Decode : string → response + error;
  MapOrder : gmap string string → list (string * string)
}.

(** The runtime visits every entry of a map once. *)
Definition world_ok (w : world) : Prop :=
  ∀ m, range m (MapOrder w m).

(** The state of the response body stream [res.Body]. *)
Inductive body_state := NoBody | BodyOpen | BodyClosed.

(** What a run does to the outside: the text written to [os.Stderr], the
    URIs requested, the response body, the bytes handed to the tab writer
    ([None] while no writer exists) and the text written to [os.Stdout]:
    what the option parser prints there and what the tab writer flushes,
    the latter recorded as the cells the writer was given (the padding that
    [text/tabwriter] inserts between columns is not modelled). *)
Record io := {
  Stderr : string;
  Requests : list string;
  Body : body_state;
  TabWriter : option string;
  Stdout : string
}.

Definition io0 : io :=
  {| Stderr := ""; Requests := []; Body := NoBody; TabWriter := None; Stdout := "" |}.

Definition TAB : string := String "009" "".
Definition NL : string := String "010" "".

(** The program as a state transformer over [io]. *)
Definition IO (A : Type) : Type := io → A * io.

#[global] Instance IO_ret : MRet IO := λ A (a : A) s, (a, s).
#[global] Instance IO_bind : MBind IO :=
  λ A B (f : A → IO B) (m : IO A) s, let '(a, s') := m s in f a s'.

Definition seq {A B} (m : IO A) (k : IO B) : IO B := m ≫= λ _, k.
Notation "m ;; k" := (seq m k) (at level 100, k at level 200, right associativity).

(** [flags.Parse(&opts)]. The call makes its parser with the library's
    default options, which include [PrintErrors]: before the parser returns
    an error it prints it with [fmt.Fprintln], a request for help (the
    usage text) to [os.Stdout] and any other error to [os.Stderr]. *)
Definition flags_Parse (w : world) : IO (options + error) := λ s,
  match Parse w with
  | inl opts => (inl opts, s)
  | inr (FlagsError ErrHelp msg) =>
      (inr (FlagsError ErrHelp msg),
       {| Stderr := Stderr s; Requests := Requests s; Body := Body s;
          TabWriter := TabWriter s; Stdout := Stdout s +:+ (msg +:+ NL) |})
  | inr err =>
      (inr err,
       {| Stderr := Stderr s +:+ (Error err +:+ NL); Requests := Requests s;
          Body := Body s; TabWriter := TabWriter s; Stdout := Stdout s |})
  end.

(** [fmt.Fprintf(os.Stderr, "%s: %s\n", msg, err)] *)
Definition printErr (msg : string) (err : error) : IO unit := λ s,
  (tt, {| Stderr := Stderr s +:+ (msg +:+ ": " +:+ Error err +:+ NL);
          Requests := Requests s; Body := Body s;
          TabWriter := TabWriter s; Stdout := Stdout s |}).

(** [http.Get(uri)]: on success the response holds an open body. *)
Definition http_Get (w : world) (uri : string) : IO (string + error) := λ s,
  match Get w uri with
  | inl bytes =>
      (inl bytes, {| Stderr := Stderr s; Requests := Requests s ++ [uri];
                     Body := BodyOpen;
                     TabWriter := TabWriter s; Stdout := Stdout s |})
  | inr err =>
      (inr err, {| Stderr := Stderr s; Requests := Requests s ++ [uri];
                   Body := Body s;
                   TabWriter := TabWriter s; Stdout := Stdout s |})
  end.

(** [res.Body.Close()], the method of the body's [io.Closer]. *)
Definition Body_Close : IO unit := λ s,
  (tt, {| Stderr := Stderr s; Requests := Requests s;
          Body := match Body s with NoBody => NoBody | _ => BodyClosed end;
          TabWriter := TabWriter s; Stdout := Stdout s |}).

(** [tabwriter.NewWriter(os.Stdout, 0, 0, 1, ' ', 0)] *)
Definition NewWriter : IO unit := λ s,
  (tt, {| Stderr := Stderr s; Requests := Requests s; Body := Body s;
          TabWriter := Some ""; Stdout := Stdout s |}).

(** A write to the tab writer ([fmt.Fprintf(w, ...)], [fmt.Fprintln(w, ...)]
    with the text already formatted): the bytes are buffered. *)
Definition Fprint (text : string) : IO unit := λ s,
  (tt, {| Stderr := Stderr s; Requests := Requests s; Body := Body s;
          TabWriter := match TabWriter s with
                       | Some buf => Some (buf +:+ text)
                       | None => None
                       end;
          Stdout := Stdout s |}).

(** [w.Flush()] *)
Definition Flush : IO unit := λ s,
  (tt, {| Stderr := Stderr s; Requests := Requests s; Body := Body s;
          TabWriter := match TabWriter s with
                       | Some _ => Some ""
                       | None => None
                       end;
          Stdout := Stdout s +:+ default "" (TabWriter s) |}).

(** The body of [for _, item := range r.Items]. *)
Definition write_item (opts : options) (item : Item.t) : IO unit :=
  (if decide (Language opts = "")
   then Fprint ("[" +:+ shortenLanguage (Item.Language item) +:+ "]" +:+ TAB)
   else mret tt) ;;
  Fprint (Item.FullName item +:+ TAB +:+ Item.Description item +:+ NL).

Fixpoint for_items (opts : options) (items : list Item.t) : IO unit :=
  match items with
  | [] => mret tt
  | item :: items' => write_item opts item ;; for_items opts items'
  end.

Definition exec (w : world) : IO Z :=
  parsed ← flags_Parse w;
  match parsed with
  | inr err =>
      if is_help err then mret 0
      else (printErr "error in parsing options" err ;; mret 1)
  | inl opts =>
      let uri := GitHubAPIURI opts +:+ "/repositories?"
                 +:+ queryString_at (MapOrder w (vals opts)) opts in
      res ← http_Get w uri;
      match res with
      | inr err => printErr "error in requesting" err ;; mret 1
      | inl body =>
          match Decode w body with
          | inr err => printErr "error in parsing reponse" err ;; mret 1
          | inl r =>
              NewWriter ;;
              for_items opts (Items r) ;;
              Flush ;;
              mret 0
          end
      end
  end.

(** [func main() { os.Exit(exec()) }]: the exit status and the effects of
    a run that starts with nothing written. *)
Definition main (w : world) : Z * io := exec w io0.

(** * The query string as the specification describes it *)

(** A filter term [key:value]. *)
Definition term (kv : string * string) : string := kv.1 +:+ ":" +:+ kv.2.

(** The sub-flags of [in] that are set, in the order name, description,
    readme, and their comma-join. *)
Definition in_parts (o : options) : list string :=
  (if InName o then ["name"] else [])
  ++ (if InDescription o then ["description"] else [])
  ++ (if InReadme o then ["readme"] else []).

Definition in_value (o : options) : string := Str.join "," (in_parts o).

(** The filter slots: for each, whether its value is meaningful (a string
    that is not empty, a flag that is set, an integer past its "unset"
    bound), its key and its value. *)
Definition filters (o : options) : list (bool * (string * string)) := [
  (bool_decide (Created o ≠ ""), ("created", Created o));
  (bool_decide (Pushed o ≠ ""), ("pushed", Pushed o));
  (bool_decide (Fork o ≠ ""), ("fork", Fork o));
  (bool_decide (Forks o >= 0), ("forks", Itoa (Forks o)));
  (InName o || InDescription o || InReadme o, ("in", in_value o));
  (bool_decide (Language o ≠ ""), ("language", Language o));
  (bool_decide (License o ≠ ""), ("license", License o));
  (bool_decide (Org o ≠ ""), ("org", Org o));
  (bool_decide (Username o ≠ ""), ("user", Username o));
  (bool_decide (Size o > 0), ("size", Itoa (Size o)));
  (bool_decide (Stars o > 0), ("stars", Itoa (Stars o)));
  (bool_decide (Topic o ≠ ""), ("topic", Topic o));
  (Archived o, ("archived", "true"))
].

(** The elements of a guarded list whose guard holds. *)
Fixpoint select {A : Type} (l : list (bool * A)) : list A :=
  match l with
  | [] => []
  | (c, x) :: l' => if c then x :: select l' else select l'
  end.

(** The filter set: the entries of the meaningful filters. *)
Definition entries (o : options) : list (string * string) := select (filters o).

(** At least one filter is meaningful. *)
Definition any_filter (o : options) : Prop := Exists (λ f, f.1 = true) (filters o).

(** There is a keyword or a filter term: the condition under which
    [queryString] writes [q=]. *)
Definition has_terms (o : options) : Prop :=
  Keyword (PosArgs o) ≠ "" ∨ any_filter o.

(** The keys a filter term can have. *)
Definition keys : list string := [
  "created"; "pushed"; "fork"; "forks"; "in"; "language"; "license";
  "org"; "user"; "size"; "stars"; "topic"; "archived"
].

(** The terms of the [q] parameter: the keyword when there is one, then
    the filter terms in the order [ord]. *)
Definition q_terms (ord : list (string * string)) (o : options) : list string :=
  (if decide (Keyword (PosArgs o) ≠ "") then [Keyword (PosArgs o)] else [])
  ++ (term <$> ord).

(** The buffer when the [range] loop is done. *)
Definition after_loop (ord : list (string * string)) (o : options) : string :=
  (if decide (has_terms o) then "q=" else "") +:+ Str.join "+" (q_terms ord o).

(** The [q=...] segment. *)
Definition q_segment (ord : list (string * string)) (o : options) : string :=
  if decide (has_terms o) then "q=" +:+ Str.join "+" (q_terms ord o) else "".

(** The sort segment, without the [&] that may precede it. *)
Definition sort_segment (o : options) : string :=
  if decide (Sort o ≠ "") then
    "sort=" +:+ Sort o
    +:+ (if decide (Order o ≠ "") then "&order=" +:+ Order o else "")
  else "".

(** The parameters of the query, each as [name=value]. *)
Definition params (ord : list (string * string)) (o : options) : list string :=
  (if decide (has_terms o) then ["q=" +:+ Str.join "+" (q_terms ord o)] else [])
  ++ (if decide (Sort o ≠ "") then
        ("sort=" +:+ Sort o)
        :: (if decide (Order o ≠ "") then ["order=" +:+ Order o] else [])
      else []).

(** The strings the caller supplies that reach the [q=] segment as they
    are, and all those that reach the query. *)
Definition q_supplied (o : options) : list string := [
  Keyword (PosArgs o); Created o; Pushed o; Fork o; Language o; License o;
  Org o; Username o; Topic o
].

Definition supplied (o : options) : list string :=
  q_supplied o ++ [Sort o; Order o].

(** The values [queryString] itself writes for [in]. *)
Definition in_values : list string := [
  ""; "readme"; "description"; "description,readme"; "name"; "name,readme";
  "name,description"; "name,description,readme"
].

(** A list of guarded assignments [if c { vals[k] = v }], run in order. *)
Definition run (g : list (bool * (string * string))) : stmt :=
  block ((λ f, If f.1 (assign f.2.1 f.2.2)) <$> g).

(** * The claims as properties *)

(** The default options with a keyword. *)
Definition with_keyword (kw : string) : options := {|
  GitHubAPIURI := GitHubAPIURI defaults;
  Created := ""; Pushed := ""; Fork := ""; Forks := -1;
  InName := false; InDescription := false; InReadme := false;
  Language := ""; License := ""; Org := ""; Username := "";
  Size := 0; Stars := 0; Topic := ""; Archived := false;
  Sort := ""; Order := "";
  PosArgs := {| Keyword := kw |}
|}.

(** [q=] occurs in the output once when there is a keyword or a filter
    term, and not at all when there is none. *)
Definition one_q_prefix (o : options) (out : string) : Prop :=
  if decide (has_terms o)
  then Str.count "q=" out = 1%nat
  else Str.count "q=" out = 0%nat.

(** Keyword [foo] and language [Go]. *)
Definition foo_Go : options := {|
  GitHubAPIURI := GitHubAPIURI defaults;
  Created := ""; Pushed := ""; Fork := ""; Forks := -1;
  InName := false; InDescription := false; InReadme := false;
  Language := "Go"; License := ""; Org := ""; Username := "";
  Size := 0; Stars := 0; Topic := ""; Archived := false;
  Sort := ""; Order := "";
  PosArgs := {| Keyword := "foo" |}
|}.

(** Without a sort field the output has no [order=]. *)
Definition no_order_without_sort (o : options) (out : string) : Prop :=
  Sort o = "" → Str.count "order=" out = 0%nat.

(** The keyword [order=] and the order [asc], no sort field. *)
Definition order_only : options := {|
  GitHubAPIURI := GitHubAPIURI defaults;
  Created := ""; Pushed := ""; Fork := ""; Forks := -1;
  InName := false; InDescription := false; InReadme := false;
  Language := ""; License := ""; Org := ""; Username := "";
  Size := 0; Stars := 0; Topic := ""; Archived := false;
  Sort := ""; Order := "asc";
  PosArgs := {| Keyword := "order=" |}
|}.

(** A hundred stars, sorted by stars, descending. *)
Definition stars_100 : options := {|
  GitHubAPIURI := GitHubAPIURI defaults;
  Created := ""; Pushed := ""; Fork := ""; Forks := -1;
  InName := false; InDescription := false; InReadme := false;
  Language := ""; License := ""; Org := ""; Username := "";
  Size := 0; Stars := 100; Topic := ""; Archived := false;
  Sort := "stars"; Order := "desc";
  PosArgs := {| Keyword := "" |}
|}.

(** The sort segment as [queryString] writes it when a sort field is
    given. *)
Definition sort_order (o : options) : string :=
  "sort=" +:+ Sort o
  +:+ (if decide (Order o ≠ "") then "&order=" +:+ Order o else "").

(** The terms of a given key among those the loop writes. *)
Definition with_key (k : string) (ord : list (string * string)) : list (string * string) :=
  filter (λ kv, kv.1 = k) ord.

(** The [in] term: none when no location flag is set, else one, with the
    comma-join of the flags that are set. *)
Definition in_term (o : options) : list (string * string) :=
  match in_parts o with
  | [] => []
  | _ :: _ => [("in", Str.join "," (in_parts o))]
  end.

(** The flags [in-name] and [in-readme]. *)
Definition name_readme : options := {|
  GitHubAPIURI := GitHubAPIURI defaults;
  Created := ""; Pushed := ""; Fork := ""; Forks := -1;
  InName := true; InDescription := false; InReadme := true;
  Language := ""; License := ""; Org := ""; Username := "";
  Size := 0; Stars := 0; Topic := ""; Archived := false;
  Sort := ""; Order := "";
  PosArgs := {| Keyword := "" |}
|}.

(** [forks], [size] and [stars] all 0. *)
Definition zero_counts : options := {|
  GitHubAPIURI := GitHubAPIURI defaults;
  Created := ""; Pushed := ""; Fork := ""; Forks := 0;
  InName := false; InDescription := false; InReadme := false;
  Language := ""; License := ""; Org := ""; Username := "";
  Size := 0; Stars := 0; Topic := ""; Archived := false;
  Sort := ""; Order := "";
  PosArgs := {| Keyword := "" |}
|}.

(** ** Reading a query back *)

(** The [&]-separated parameters of a query. *)
Definition parameters (out : string) : list string :=
  if decide (out = "") then [] else Str.split "&" out.

(** The value of a parameter [q=...]. *)
Definition q_value (param : string) : option string :=
  match param with
  | String "q" (String "=" v) => Some v
  | _ => None
  end.

(** The [+]-separated terms of the [q] parameter, when it is the first
    parameter. *)
Definition read_terms (out : string) : list string :=
  match parameters out with
  | param :: _ =>
      match q_value param with
      | Some v => Str.split "+" v
      | None => []
      end
  | [] => []
  end.

(** The syntax is kept: reading the output back gives the parameters and
    the terms that were written. *)
Definition syntax_kept (o : options) (ord : list (string * string)) (out : string) : Prop :=
  parameters out = params ord o ∧ read_terms out = q_terms ord o.

(** The topic [go&sort=forks]. *)
Definition topic_amp : options := {|
  GitHubAPIURI := GitHubAPIURI defaults;
  Created := ""; Pushed := ""; Fork := ""; Forks := -1;
  InName := false; InDescription := false; InReadme := false;
  Language := ""; License := ""; Org := ""; Username := "";
  Size := 0; Stars := 0; Topic := "go&sort=forks"; Archived := false;
  Sort := ""; Order := "";
  PosArgs := {| Keyword := "" |}
|}.

(** A string without [&] and without [+]. *)
Definition no_separator (s : string) : Prop :=
  Str.mem "&" s = false ∧ Str.mem "+" s = false.

(** ** A run *)

(** The URI that [exec] requests. *)
Definition uri_of (w : world) (opts : options) : string :=
  GitHubAPIURI opts +:+ "/repositories?"
  +:+ queryString_at (MapOrder w (vals opts)) opts.

(** How a run goes, from what it meets: a request for help, one of the
    three failures, or a success with the decoded response. *)
Inductive outcome :=
  | Help
  | ParseFailure (err : error)
  | TransportFailure (opts : options) (err : error)
  | DecodeFailure (opts : options) (err : error)
  | Success (opts : options) (r : response).

Definition outcome_of (w : world) : outcome :=
  match Parse w with
  | inr (FlagsError ErrHelp _) => Help
  | inr err => ParseFailure err
  | inl opts =>
      match Get w (uri_of w opts) with
      | inr err => TransportFailure opts err
      | inl body =>
          match Decode w body with
          | inr err => DecodeFailure opts err
          | inl r => Success opts r
          end
      end
  end.

(** The text of the error that the option parser returned, if any. *)
Definition parse_error_text (w : world) : string :=
  match Parse w with
  | inr err => Error err
  | inl _ => ""
  end.

(** The line [printErr] writes. *)
Definition diagnostic (msg : string) (err : error) : string :=
  msg +:+ ": " +:+ Error err +:+ NL.

(** No result row reached standard output: no tab writer was made and
    nothing was written to [os.Stdout]. *)
Definition no_rows (s : io) : Prop := TabWriter s = None ∧ Stdout s = "".

(** The line of one item: the language in brackets and a separator when
    the caller gave no language filter, then the full name, a separator and
    the description. *)
Definition row (opts : options) (item : Item.t) : string :=
  (if decide (Language opts = "")
   then "[" +:+ shortenLanguage (Item.Language item) +:+ "]" +:+ TAB
   else "")
  +:+ Item.FullName item +:+ TAB +:+ Item.Description item +:+ NL.

(** The lines of all items, in order. *)
Fixpoint rows (opts : options) (items : list Item.t) : string :=
  match items with
  | [] => ""
  | item :: items' => row opts item +:+ rows opts items'
  end.

(** The response body is not left open. *)
Definition body_released (s : io) : Prop := Body s ≠ BodyOpen.

(** A world in which the default options are parsed, the request succeeds
    and the response has two items, the first without a language. *)
Definition two_items : response := {| Items := [
  {| Item.License := ""; Item.Language := "";
     Item.FullName := "a/b"; Item.Description := "d" |};
  {| Item.License := ""; Item.Language := "JavaScript";
     Item.FullName := "c/d"; Item.Description := "" |}
] |}.

Definition world_two_items : world := {|
  Parse := inl defaults;
  Get := λ _, inl "{}";
  Decode := λ _, inl two_items;
  MapOrder := map_to_list
|}.

(** A world in which the body of the response is not JSON. *)
Definition world_bad_json : world := {|
  Parse := inl defaults;
  Get := λ _, inl "<html>";
  Decode := λ _, inr (PlainError "invalid character '<' looking for beginning of value");
  MapOrder := map_to_list
|}.

(** A world in which the response has no items. *)
Definition world_no_items : world := {|
  Parse := inl defaults;
  Get := λ _, inl "{}";
  Decode := λ _, inl {| Items := [] |};
  MapOrder := map_to_list
|}.

(** * Further options and worlds *)

(** Only an order, no sort field. *)
Definition just_order : options := {|
  GitHubAPIURI := GitHubAPIURI defaults;
  Created := ""; Pushed := ""; Fork := ""; Forks := -1;
  InName := false; InDescription := false; InReadme := false;
  Language := ""; License := ""; Org := ""; Username := "";
  Size := 0; Stars := 0; Topic := ""; Archived := false;
  Sort := ""; Order := "asc";
  PosArgs := {| Keyword := "" |}
|}.

(** The language [Go] and the topic [cli]. *)
Definition Go_cli : options := {|
  GitHubAPIURI := GitHubAPIURI defaults;
  Created := ""; Pushed := ""; Fork := ""; Forks := -1;
  InName := false; InDescription := false; InReadme := false;
  Language := "Go"; License := ""; Org := ""; Username := "";
  Size := 0; Stars := 0; Topic := "cli"; Archived := false;
  Sort := ""; Order := "";
  PosArgs := {| Keyword := "" |}
|}.

(** A decimal digit. *)
Definition digit (c : ascii) : bool := Str.mem c "0123456789".

(** Three forks, a size of 20 and 100 stars. *)
Definition counts : options := {|
  GitHubAPIURI := GitHubAPIURI defaults;
  Created := ""; Pushed := ""; Fork := ""; Forks := 3;
  InName := false; InDescription := false; InReadme := false;
  Language := ""; License := ""; Org := ""; Username := "";
  Size := 20; Stars := 100; Topic := ""; Archived := false;
  Sort := ""; Order := "";
  PosArgs := {| Keyword := "" |}
|}.

(** A world in which the command line asks for help. *)
Definition world_help : world := {|
  Parse := inr (FlagsError ErrHelp "Usage: git-search [OPTIONS] [KEYWORD]");
  Get := λ _, inl "{}";
  Decode := λ _, inl {| Items := [] |};
  MapOrder := map_to_list
|}.

(** An item has the byte [c] in none of the fields that are printed. *)
Definition item_without (c : ascii) (item : Item.t) : Prop :=
  Str.mem c (Item.Language item) = false
  ∧ Str.mem c (Item.FullName item) = false
  ∧ Str.mem c (Item.Description item) = false.

(** Every string filter and the archived flag set. *)
Definition all_strings : options := {|
  GitHubAPIURI := GitHubAPIURI defaults;
  Created := "2020-01-01"; Pushed := "2021-01-01"; Fork := "only"; Forks := -1;
  InName := false; InDescription := false; InReadme := false;
  Language := "Go"; License := "mit"; Org := "golang"; Username := "rsc";
  Size := 0; Stars := 0; Topic := "cli"; Archived := true;
  Sort := ""; Order := "";
  PosArgs := {| Keyword := "" |}
|}.

(** The term of a string filter: none when the string is empty. *)
Definition string_term (k v : string) : list (string * string) :=
  if decide (v ≠ "") then [(k, v)] else [].

(** A world in which the options [foo_Go] are parsed and the response has
    two items. *)
Definition world_foo_Go : world := {|
  Parse := inl foo_Go;
  Get := λ _, inl "{}";
  Decode := λ _, inl two_items;
  MapOrder := map_to_list
|}.


(** A world in which the command line has a flag that does not exist. *)
Definition unknown_flag : error :=
  FlagsError ErrUnknownFlag "unknown flag `bogus'".

Definition world_unknown_flag : world := {|
  Parse := inr unknown_flag;
  Get := λ _, inl "{}";
  Decode := λ _, inl {| Items := [] |};
  MapOrder := map_to_list
|}.

(** The texts [f item] of the items, one after the other. *)
Fixpoint lines (f : Item.t → string) (items : list Item.t) : string :=
  match items with
  | [] => ""
  | item :: items' => f item +:+ lines f items'
  end.

(** * Facts about strings *)

Module StrFacts.
Import Str.

Lemma app_nil_l (s : string) : "" +:+ s = s.
Proof. reflexivity. Qed.

Lemma app_cons (a : ascii) (s t : string) : String a s +:+ t = String a (s +:+ t).
Proof. reflexivity. Qed.

Lemma app_nil_r (s : string) : s +:+ "" = s.
Proof. induction s as [|a s IH]; [done|]. by rewrite app_cons, IH. Qed.

Lemma app_assoc (s t u : string) : (s +:+ t) +:+ u = s +:+ (t +:+ u).
Proof. induction s as [|a s IH]; [done|]. by rewrite !app_cons, IH. Qed.

Lemma app_eq_nil (s t : string) : s +:+ t = "" ↔ s = "" ∧ t = "".
Proof.
  split; [|by intros [-> ->]].
  destruct s; [by rewrite app_nil_l|by rewrite app_cons].
Qed.

Lemma length_zero (s : string) : String.length s = 0%nat ↔ s = "".
Proof. by destruct s. Qed.

(** ** [prefix] *)

Lemma prefix_nil (s : string) : prefix "" s = true.
Proof. by destruct s. Qed.

Lemma prefix_app (p s : string) : prefix p (p +:+ s) = true.
Proof.
  induction p as [|a p IH]; [apply prefix_nil|].
  rewrite app_cons. simpl. by rewrite decide_True.
Qed.

Lemma prefix_cons_ne (a b : ascii) (p s : string) :
  a ≠ b → prefix (String a p) (String b s) = false.
Proof. intros H. simpl. by rewrite decide_False. Qed.

(** A byte that is not in [p] stops every occurrence of [p] that starts
    before it. *)
Lemma prefix_barrier (c : ascii) (p a b : string) :
  mem c p = false → p ≠ "" → prefix p (a +:+ String c b) = prefix p a.
Proof.
  revert a. induction p as [|x p IH]; intros a Hc Hp; [done|].
  simpl in Hc. destruct (decide (c = x)) as [|Hx]; [done|].
  destruct a as [|y a].
  - rewrite app_nil_l. simpl. by rewrite decide_False.
  - rewrite app_cons. simpl. destruct (decide (x = y)); [|done].
    destruct p as [|z p]; [done|]. by apply IH.
Qed.

Lemma suffix_app (p s : string) : suffix p (s +:+ p) = true.
Proof.
  induction s as [|a s IH].
  - rewrite app_nil_l. destruct p; cbn [suffix]; by rewrite decide_True.
  - rewrite app_cons. cbn [suffix]. by destruct (decide _).
Qed.

(** ** [mem] *)

Lemma mem_cons_false c a s : mem c (String a s) = false ↔ c ≠ a ∧ mem c s = false.
Proof.
  simpl. destruct (decide (c = a)) as [->|Hne]; split.
  - done.
  - by intros [H _].
  - done.
  - by intros [_ H].
Qed.


Lemma mem_app (c : ascii) (s t : string) : mem c (s +:+ t) = mem c s || mem c t.
Proof.
  induction s as [|a s IH]; [done|].
  rewrite app_cons. simpl. by destruct (decide (c = a)).
Qed.

(** ** [count] *)

Lemma count_nil (p : string) : p ≠ "" → count p "" = 0%nat.
Proof. by destruct p. Qed.

Lemma count_cons_ne (a b : ascii) (p s : string) :
  a ≠ b → count (String a p) (String b s) = count (String a p) s.
Proof. intros H. cbn [count]. by rewrite prefix_cons_ne. Qed.

(** A string without the first byte of [p] has no occurrence of [p]. *)
Lemma count_no_head (a : ascii) (p s : string) :
  mem a s = false → count (String a p) s = 0%nat.
Proof.
  induction s as [|b s IH]; [done|]. simpl.
  destruct (decide (a = b)); [done|]. intros H. by rewrite IH.
Qed.

(** Occurrences do not cross a byte that is not in the pattern. *)
Lemma count_barrier (c : ascii) (p a b : string) :
  mem c p = false → p ≠ "" →
  count p (a +:+ String c b) = (count p a + count p b)%nat.
Proof.
  intros Hc Hp. induction a as [|y a IH].
  - rewrite app_nil_l, (count_nil p Hp). destruct p as [|x p]; [done|].
    simpl in Hc. destruct (decide (c = x)); [done|].
    by rewrite count_cons_ne.
  - rewrite app_cons. cbn [count]. rewrite IH.
    rewrite <-(app_cons y a (String c b)), prefix_barrier by done. lia.
Qed.

(** With a pattern of one byte, the occurrences are those of the two
    parts. *)
Lemma count_byte_app (c : ascii) (a b : string) :
  count (String c "") (a +:+ b)
  = (count (String c "") a + count (String c "") b)%nat.
Proof.
  induction a as [|y a IH]; [done|].
  rewrite app_cons. cbn [count]. rewrite IH.
  assert (prefix (String c "") (String y (a +:+ b))
          = prefix (String c "") (String y a)) as ->; [|lia].
  simpl. by destruct (decide (c = y)).
Qed.

End StrFacts.

(** * Facts about the map [vals] *)

Section Guarded.

Lemma run_snoc g f m : run (g ++ [f]) m = If f.1 (assign f.2.1 f.2.2) (run g m).
Proof. unfold run, block. by rewrite fmap_app, fold_left_app. Qed.

Lemma lookup_If_assign_ne (c : bool) k v k' (m : gmap string string) :
  k ≠ k' → If c (assign k v) m !! k' = m !! k'.
Proof. intros H. unfold If, assign. destruct c; [|done]. by rewrite lookup_insert_ne. Qed.

Lemma lookup_run_notin g k (m : gmap string string) :
  k ∉ g.*2.*1 → run g m !! k = m !! k.
Proof.
  induction g as [|f g IH] using rev_ind; [done|].
  rewrite !fmap_app, not_elem_of_app, run_snoc. intros [Hg Hf].
  rewrite lookup_If_assign_ne; [by apply IH|].
  intros Hk. apply Hf. rewrite <-Hk. simpl. apply list_elem_of_here.
Qed.

Lemma select_app {A} (l1 l2 : list (bool * A)) :
  select (l1 ++ l2) = select l1 ++ select l2.
Proof.
  induction l1 as [|[c x] l1 IH]; [done|]. simpl. destruct c; [|done].
  by rewrite IH.
Qed.

Lemma select_nil {A} (l : list (bool * A)) :
  select l = [] ↔ ¬ Exists (λ f, f.1 = true) l.
Proof.
  induction l as [|[c y] l IH]; simpl.
  - split; [|done]. intros _ H. by apply Exists_nil in H.
  - rewrite Exists_cons. destruct c; simpl.
    + split; [done|]. intros H. destruct H. by left.
    + rewrite IH. split.
      * intros H [?|?]; [done|by apply H].
      * intros H ?. apply H. by right.
Qed.

Lemma filter_select {A} (P : A → Prop) `{!∀ x, Decision (P x)} (l : list (bool * A)) :
  filter P (select l) = select (filter (λ f, P f.2) l).
Proof.
  induction l as [|[c y] l IH]; [done|]. simpl.
  destruct c; rewrite ?filter_cons; simpl; destruct (decide (P y)); simpl;
    by rewrite ?IH.
Qed.

(** The entries of the map that the guarded assignments build are the
    assignments whose guard holds. *)
Lemma map_to_list_run g :
  NoDup g.*2.*1 → map_to_list (run g ∅) ≡ₚ select g.
Proof.
  induction g as [|[c [k v]] g IH] using rev_ind; intros Hnd.
  - unfold run, block. simpl. by rewrite map_to_list_empty.
  - rewrite !fmap_app in Hnd. apply NoDup_app in Hnd as (Hg & Hk & _).
    rewrite run_snoc, select_app. simpl. destruct c; simpl.
    + unfold assign. rewrite map_to_list_insert.
      * rewrite IH by done. apply Permutation_cons_append.
      * rewrite lookup_run_notin, lookup_empty; [done|].
        intros Hin. apply (Hk k Hin). simpl. apply list_elem_of_here.
    + rewrite app_nil_r. by apply IH.
Qed.

End Guarded.

Section Vals.

(** The three [in] blocks together are one guarded assignment of the
    comma-join. *)
Lemma in_steps (n d r : bool) (m : gmap string string) :
  m !! "in" = None →
  If r (IfHas "in" (append_to "in" ",readme") (assign "in" "readme"))
    (If d (IfHas "in" (append_to "in" ",description") (assign "in" "description"))
       (If n (assign "in" "name") m))
  = If (n || d || r)
      (assign "in"
         (Str.join "," ((if n then ["name"] else [])
                        ++ (if d then ["description"] else [])
                        ++ (if r then ["readme"] else [])))) m.
Proof.
  intros Hm.
  assert (Hno : has_key "in" m = false).
  { unfold has_key. rewrite Hm. apply bool_decide_eq_false. by intros [? ?]. }
  assert (Hyes : ∀ v (m' : gmap string string), has_key "in" (<["in" := v]> m') = true).
  { intros v m'. unfold has_key. rewrite lookup_insert_eq.
    apply bool_decide_eq_true. eauto. }
  destruct n, d, r; unfold If, IfHas, append_to, assign; simpl;
    repeat first [ rewrite Hno | rewrite Hyes | rewrite lookup_insert_eq
                 | rewrite insert_insert_eq | progress simpl ];
    reflexivity.
Qed.

Lemma vals_run o : vals o = run (filters o) ∅.
Proof.
  unfold vals, run, block, filters. cbn [fold_left fmap list_fmap fst snd].
  rewrite in_steps; [reflexivity|].
  rewrite !lookup_If_assign_ne by done. apply lookup_empty.
Qed.

Lemma filters_keys o : (filters o).*2.*1 = keys.
Proof. reflexivity. Qed.

Lemma NoDup_keys : NoDup keys.
Proof. apply (bool_decide_unpack _). by vm_compute. Qed.

(** Whatever the order of the [range] loop, the terms it writes are the
    entries of the meaningful filters. *)
Lemma range_entries o ord : range (vals o) ord → ord ≡ₚ entries o.
Proof.
  unfold range, entries. intros ->. rewrite vals_run.
  apply map_to_list_run. rewrite filters_keys. apply NoDup_keys.
Qed.

Lemma range_run o : range (vals o) (map_to_list (vals o)).
Proof. by unfold range. Qed.

Lemma size_vals o : size (vals o) ≠ 0%nat ↔ any_filter o.
Proof.
  rewrite <-length_map_to_list, (Permutation_length (range_entries o _ (range_run o))).
  unfold entries, any_filter. rewrite length_zero_iff_nil, select_nil.
  split; [|naive_solver]. intros H. by apply dec_stable.
Qed.

(** The condition of the [if] that writes [q=]. *)
Lemma has_q_iff o :
  Keyword (PosArgs o) ≠ "" ∨ size (vals o) ≠ 0%nat ↔ has_terms o.
Proof. unfold has_terms. by rewrite size_vals. Qed.

Lemma range_nil o ord : range (vals o) ord → ¬ any_filter o → ord = [].
Proof.
  intros Hr Hn. apply range_entries in Hr. apply Permutation_nil_r.
  rewrite Hr. unfold entries. by rewrite (proj2 (select_nil _) Hn).
Qed.

End Vals.

(** * The closed form of [queryString] *)

Section ClosedForm.
Import Str StrFacts.

Lemma join_cons sep x l : join sep (x :: l) = x +:+ plus sep l.
Proof.
  revert x. induction l as [|y l IH]; intros x.
  - simpl. by rewrite app_nil_r.
  - change (join sep (x :: y :: l)) with (x +:+ sep +:+ join sep (y :: l)).
    by rewrite IH.
Qed.

(** The [range] loop appends the terms; the first one is written
    without [+] exactly when nothing was written before it. *)
Lemma fold_write_term ord buf isFirst :
  (fold_left write_term ord (buf, isFirst)).1
  = buf +:+ (if isFirst then join "+" (term <$> ord) else plus "+" (term <$> ord)).
Proof.
  revert buf isFirst. induction ord as [|[k v] ord IH]; intros buf isFirst.
  - simpl. destruct isFirst; by rewrite app_nil_r.
  - cbn [fold_left write_term]. rewrite IH, fmap_cons.
    destruct isFirst.
    + rewrite join_cons, app_assoc. reflexivity.
    + cbn [plus]. unfold term at 2. cbn [fst snd]. by rewrite !app_assoc.
Qed.

Lemma queryString_at_eq ord o :
  queryString_at ord o
  = after_loop ord o
    +:+ (if decide (Sort o ≠ "")
         then (if decide (after_loop ord o ≠ "") then "&" else "") +:+ sort_segment o
         else "").
Proof.
  unfold queryString_at. rewrite (decide_ext _ _ _ _ (has_q_iff o)).
  assert (Hloop : ∀ st,
    st = (if decide (Keyword (PosArgs o) ≠ "")
          then ((if decide (has_terms o) then "" +:+ "q=" else "")
                +:+ Keyword (PosArgs o), false)
          else (if decide (has_terms o) then "" +:+ "q=" else "", true)) →
    (fold_left write_term ord st).1 = after_loop ord o).
  { intros st ->. unfold after_loop, q_terms.
    destruct (decide (Keyword (PosArgs o) ≠ "")); rewrite fold_write_term.
    - cbn [app]. rewrite join_cons, app_assoc.
      by destruct (decide (has_terms o)).
    - by destruct (decide (has_terms o)). }
  specialize (Hloop _ eq_refl). revert Hloop.
  destruct (if decide (Keyword (PosArgs o) ≠ "") then _ else _) as [buf0 isFirst0].
  destruct (fold_left write_term ord (buf0, isFirst0)) as [buf isFirst].
  cbn [fst]. intros ->. generalize (after_loop ord o) as B. intros B.
  unfold sort_segment.
  destruct (decide (Sort o ≠ "")); [|by rewrite app_nil_r].
  destruct (decide (String.length B ≠ 0%nat)) as [H1|H1];
    destruct (decide (B ≠ "")) as [H2|H2];
    try (exfalso; rewrite length_zero in H1; tauto);
    destruct (decide (Order o ≠ "")); by rewrite ?app_assoc, ?app_nil_r.
Qed.

(** With the terms of the map, the buffer is empty exactly when [q=] was
    not written. *)
Lemma after_loop_q ord o :
  range (vals o) ord → after_loop ord o = q_segment ord o.
Proof.
  intros Hr. unfold after_loop, q_segment, q_terms.
  destruct (decide (has_terms o)) as [|Hn]; [done|].
  rewrite (range_nil o ord Hr) by (unfold has_terms in Hn; tauto).
  destruct (decide (Keyword (PosArgs o) ≠ "")); [|done].
  unfold has_terms in Hn. tauto.
Qed.

Lemma q_segment_nonempty ord o : q_segment ord o ≠ "" ↔ has_terms o.
Proof. unfold q_segment. by destruct (decide (has_terms o)). Qed.

(** The output of [queryString]: the [q=] segment, then the sort segment,
    with [&] between them when both are there. *)
Lemma queryString_at_segments ord o :
  range (vals o) ord →
  queryString_at ord o
  = q_segment ord o
    +:+ (if decide (Sort o ≠ "")
         then (if decide (has_terms o) then "&" else "") +:+ sort_segment o
         else "").
Proof.
  intros Hr. rewrite queryString_at_eq, (after_loop_q _ _ Hr).
  by rewrite (decide_ext _ _ _ _ (q_segment_nonempty ord o)).
Qed.

(** The output is the [&]-join of its parameters. *)
Lemma queryString_at_params ord o :
  range (vals o) ord → queryString_at ord o = join "&" (params ord o).
Proof.
  intros Hr. rewrite (queryString_at_segments _ _ Hr).
  unfold q_segment, sort_segment, params.
  destruct (decide (has_terms o)), (decide (Sort o ≠ "")), (decide (Order o ≠ ""));
    cbn [app]; rewrite ?join_cons; cbn [plus join];
    by rewrite ?app_nil_l, ?app_nil_r, ?app_assoc.
Qed.

End ClosedForm.

(** * Occurrences of a pattern in the query *)

Section Itoa.
Import Str StrFacts.

Lemma mem_string_of_uint c d :
  mem c "0123456789" = false → mem c (NilEmpty.string_of_uint d) = false.
Proof.
  rewrite !mem_cons_false. intros (?&?&?&?&?&?&?&?&?&?&_).
  induction d; simpl; rewrite ?decide_False by done; done.
Qed.

(** [Itoa] writes digits and [-] only. *)
Lemma mem_Itoa c n : mem c "-0123456789" = false → mem c (Itoa n) = false.
Proof.
  rewrite mem_cons_false. intros [Hm Hd].
  assert (Hu : ∀ d, mem c (NilZero.string_of_uint d) = false).
  { intros d. pose proof (mem_string_of_uint c d Hd) as H.
    destruct d; try exact H. exact (mem_string_of_uint c (Decimal.D0 Decimal.Nil) Hd). }
  unfold Itoa, NilZero.string_of_int. destruct (Z.to_int n); [apply Hu|].
  apply mem_cons_false. split; [done|apply Hu].
Qed.

Lemma in_value_in o : in_value o ∈ in_values.
Proof.
  unfold in_value, in_parts.
  destruct (InName o), (InDescription o), (InReadme o); vm_compute;
    repeat constructor.
Qed.

End Itoa.

Section SuppliedValues.

(** A property of strings that the keys and the values [queryString]
    writes of its own have, and that a term has when its key and its
    value have it. *)
Variable P : string → Prop.
Hypothesis P_term : ∀ k v, P k → P v → P (term (k, v)).
Hypothesis P_Itoa : ∀ n, P (Itoa n).
Hypothesis P_keys : Forall P keys.
Hypothesis P_in : Forall P in_values.
Hypothesis P_true : P "true".

Lemma select_Forall {A} (Q : A → Prop) (l : list (bool * A)) :
  Forall (λ f, Q f.2) l → Forall Q (select l).
Proof.
  induction 1 as [|[c y] l Hy Hl IH]; simpl; [done|].
  destruct c; [by constructor|done].
Qed.

Lemma P_in_value o : P (in_value o).
Proof.
  pose proof (in_value_in o) as H. revert H. generalize (in_value o).
  by apply Forall_forall.
Qed.

(** Every filter term has the property when the supplied values have
    it. *)
Lemma entries_Forall o :
  Forall P (q_supplied o) → Forall (λ kv, P (term kv)) (entries o).
Proof.
  intros Hs. unfold entries. apply select_Forall.
  unfold q_supplied in Hs. unfold keys in P_keys.
  repeat match goal with
         | H : Forall _ (_ :: _) |- _ => apply Forall_cons in H as [? ?]
         end.
  unfold filters.
  repeat (apply Forall_cons; split; [cbn [snd]; apply P_term;
    first [assumption | apply P_Itoa | apply P_in_value]|]).
  apply Forall_nil_2.
Qed.

Lemma q_terms_Forall o ord :
  range (vals o) ord → Forall P (q_supplied o) → Forall P (q_terms ord o).
Proof.
  intros Hr Hs. unfold q_terms. apply Forall_app. split.
  - destruct (decide (Keyword (PosArgs o) ≠ "")); [|done].
    apply Forall_cons in Hs as [Hk _]. by constructor.
  - apply Forall_fmap. rewrite (range_entries _ _ Hr). by apply entries_Forall.
Qed.

End SuppliedValues.

Section Occurrences.
Import Str StrFacts.

(** A pattern [p] that has none of the separators [+], [:] and no digit
    or [-] at its head, and that does not occur in the keys and values
    [queryString] writes of its own. *)
Variables (x : ascii) (p' : string).
Let p : string := String x p'.
Hypothesis Hplus : mem "+" p = false.
Hypothesis Hcolon : mem ":" p = false.
Hypothesis Hdigits : mem x "-0123456789" = false.
Hypothesis Hkeys : Forall (λ k, count p k = 0%nat) keys.
Hypothesis Hin : Forall (λ v, count p v = 0%nat) in_values.
Hypothesis Htrue : count p "true" = 0%nat.

Lemma count_app_plus c a l :
  mem c p = false → Forall (λ s, count p s = 0%nat) l →
  count p (a +:+ plus (String c "") l) = count p a.
Proof.
  intros Hc Hl. revert a. induction Hl as [|y l Hy Hl IH]; intros a.
  - simpl. by rewrite app_nil_r.
  - cbn [plus]. rewrite app_cons, app_nil_l, count_barrier, IH by done. lia.
Qed.

Lemma count_join c l :
  mem c p = false → Forall (λ s, count p s = 0%nat) l →
  count p (join (String c "") l) = 0%nat.
Proof.
  intros Hc Hl. destruct Hl as [|y l Hy Hl]; [done|].
  by rewrite join_cons, count_app_plus.
Qed.

Lemma count_q_terms o ord :
  range (vals o) ord →
  Forall (λ s, count p s = 0%nat) (q_supplied o) →
  count p (join "+" (q_terms ord o)) = 0%nat.
Proof.
  intros Hr Hs. apply count_join; [done|].
  apply (q_terms_Forall (λ s, count p s = 0%nat)); try done.
  - intros k v Hk Hv. unfold term. cbn [fst snd].
    rewrite app_cons, app_nil_l, count_barrier by done. lia.
  - intros n. apply count_no_head. by apply mem_Itoa.
Qed.

End Occurrences.

Section Patterns.
Import Str StrFacts.

Lemma count_q_terms_q o ord :
  range (vals o) ord →
  Forall (λ s, count "q=" s = 0%nat) (q_supplied o) →
  count "q=" (join "+" (q_terms ord o)) = 0%nat.
Proof.
  apply (count_q_terms "q" "="); try reflexivity.
  - apply (bool_decide_unpack _). by vm_compute.
  - apply (bool_decide_unpack _). by vm_compute.
Qed.

Lemma count_q_terms_order o ord :
  range (vals o) ord →
  Forall (λ s, count "order=" s = 0%nat) (q_supplied o) →
  count "order=" (join "+" (q_terms ord o)) = 0%nat.
Proof.
  apply (count_q_terms "o" "rder="); try reflexivity.
  - apply (bool_decide_unpack _). by vm_compute.
  - apply (bool_decide_unpack _). by vm_compute.
Qed.

Lemma count_q_cons s : count "q=" ("q=" +:+ s) = S (count "q=" s).
Proof. reflexivity. Qed.

Lemma count_q_sort_segment o :
  count "q=" (Sort o) = 0%nat → count "q=" (Order o) = 0%nat →
  count "q=" (sort_segment o) = 0%nat.
Proof.
  intros HS HO. unfold sort_segment.
  destruct (decide (Sort o ≠ "")); [|done].
  rewrite !app_cons, app_nil_l, !count_cons_ne by done.
  destruct (decide (Order o ≠ "")); [|by rewrite app_nil_r].
  rewrite ?app_cons, ?app_nil_l, count_barrier by done.
  rewrite !count_cons_ne by done. lia.
Qed.

End Patterns.

(** * The claims about [queryString] *)

Section QueryClaims.
Import Str StrFacts.

(** [queryString] always returns: the order of [map_to_list] is one of
    the orders of the loop. *)
Lemma queryString_total o : queryString o (queryString_run o).
Proof. exists (map_to_list (vals o)). split; [apply range_run|done]. Qed.

(** Running the function on given options gives one of its outputs. *)
Lemma queryString_run_eq o out : queryString_run o = out → queryString o out.
Proof. intros <-. apply queryString_total. Qed.

(** The keyword [foo] and the language [Go]. *)
Example query_foo_Go : queryString_run foo_Go = "q=foo+language:Go".
Proof. by vm_compute. Qed.

(** A hundred stars, sorted by stars, descending. *)
Example query_stars_100 :
  queryString_run stars_100 = "q=stars:100&sort=stars&order=desc".
Proof. by vm_compute. Qed.

(** No keyword, no filter, no sort field: the empty query. *)
Example query_defaults : queryString_run defaults = "".
Proof. by vm_compute. Qed.

(** The values of the [in] term. *)
Example in_term_values :
  (∀ o, InName o = false → InDescription o = false → InReadme o = false →
        in_term o = [])
  ∧ (∀ o, InName o = true → InDescription o = false → InReadme o = false →
          in_term o = [("in", "name")])
  ∧ (∀ o, InName o = true → InDescription o = true → InReadme o = false →
          in_term o = [("in", "name,description")])
  ∧ (∀ o, InName o = true → InDescription o = true → InReadme o = true →
          in_term o = [("in", "name,description,readme")]).
Proof.
  unfold in_term, in_parts. repeat split; by intros o -> -> ->.
Qed.

(** C1 (as stated): a supplied value that itself holds [q=] makes the
    output hold it more than once; with the keyword [q=] the query is
    [q=q=]. *)
Lemma C1_q_twice :
  queryString (with_keyword "q=") "q=q="
  ∧ ¬ one_q_prefix (with_keyword "q=") "q=q=".
Proof.
  split; [by apply queryString_run_eq; vm_compute|].
  unfold one_q_prefix. rewrite decide_True; [by vm_compute|].
  left. by vm_compute.
Qed.

(** C1 (amended): the output starts with [q=] exactly when the keyword is
    not empty or a filter is meaningful; and when no supplied value holds
    [q=] itself, [q=] occurs in the output once in that case and never
    otherwise. *)
Theorem C1_q_prefix o out :
  queryString o out →
  (prefix "q=" out = true ↔ has_terms o)
  ∧ (Forall (λ s, count "q=" s = 0%nat) (supplied o) → one_q_prefix o out).
Proof.
  intros (ord & Hr & ->). rewrite (queryString_at_segments _ _ Hr).
  unfold one_q_prefix, q_segment. split.
  - destruct (decide (has_terms o)) as [Ht|Ht].
    + by rewrite app_assoc, prefix_app.
    + rewrite app_nil_l. unfold sort_segment.
      destruct (decide (Sort o ≠ "")); [by rewrite ?app_cons, ?app_nil_l|done].
  - intros Hs. apply Forall_app in Hs as [Hq Hso].
    apply Forall_cons in Hso as [HS Hso]. apply Forall_cons in Hso as [HO _].
    pose proof (count_q_terms_q o ord Hr Hq) as HJ.
    pose proof (count_q_sort_segment o HS HO) as HT.
    destruct (decide (has_terms o)) as [Ht|Ht].
    + rewrite app_assoc, count_q_cons. f_equal.
      destruct (decide (Sort o ≠ "")); [|by rewrite app_nil_r].
      rewrite app_cons, app_nil_l, count_barrier by done. lia.
    + rewrite app_nil_l. destruct (decide (Sort o ≠ "")); [|done].
      by rewrite app_nil_l.
Qed.

(** C1 at the keyword [foo] and the language [Go]. *)
Lemma C1_q_prefix_witness :
  queryString foo_Go "q=foo+language:Go"
  ∧ Forall (λ s, count "q=" s = 0%nat) (supplied foo_Go)
  ∧ (prefix "q=" "q=foo+language:Go" = true ↔ has_terms foo_Go)
  ∧ one_q_prefix foo_Go "q=foo+language:Go".
Proof.
  assert (H : queryString foo_Go "q=foo+language:Go").
  { exists [("language", "Go")]. split; [by vm_compute|by vm_compute]. }
  assert (Hs : Forall (λ s, count "q=" s = 0%nat) (supplied foo_Go)).
  { apply (bool_decide_unpack _). by vm_compute. }
  destruct (C1_q_prefix foo_Go "q=foo+language:Go" H) as [H1 H2].
  auto.
Defined.

(** C3 (as stated): with the keyword [order=] and no sort field, the
    output [q=order=] holds [order=]. *)
Lemma C3_order_in_keyword :
  queryString order_only "q=order="
  ∧ ¬ no_order_without_sort order_only "q=order=".
Proof.
  split; [by apply queryString_run_eq; vm_compute|].
  intros H. specialize (H eq_refl). by vm_compute in H.
Qed.

(** C3 (amended): without a sort field the output is the [q=] segment
    alone, whatever the order, so it holds [order=] only where a supplied
    keyword or filter value does; with a sort field the output ends with
    [sort=<field>], followed by [&order=<order>] when an order is given,
    and this segment comes after the [q=] segment and a [&] when there is
    a keyword or a filter term, and is the whole output when there is
    none. *)
Theorem C3_sort_order o out :
  queryString o out →
  ∃ ord, range (vals o) ord
    ∧ (Sort o = "" →
         out = q_segment ord o
         ∧ (Forall (λ s, count "order=" s = 0%nat) (q_supplied o) →
            count "order=" out = 0%nat))
    ∧ (Sort o ≠ "" →
         suffix (sort_order o) out = true
         ∧ (has_terms o → out = q_segment ord o +:+ "&" +:+ sort_order o)
         ∧ (¬ has_terms o → out = sort_order o)).
Proof.
  intros (ord & Hr & ->). exists ord. split; [done|].
  rewrite (queryString_at_segments _ _ Hr). unfold sort_segment.
  fold (sort_order o). split.
  - intros HS. rewrite decide_False by naive_solver. rewrite app_nil_r.
    split; [done|]. intros Hq. unfold q_segment.
    destruct (decide (has_terms o)); [|done].
    rewrite !app_cons, app_nil_l, !count_cons_ne by done.
    by apply count_q_terms_order.
  - intros HS. destruct (decide (Sort o ≠ "")) as [_|]; [|done].
    split; [|split].
    + by rewrite <-!app_assoc, suffix_app.
    + intros Ht. by rewrite decide_True.
    + intros Ht. unfold q_segment. by rewrite !decide_False.
Qed.

(** C3 at a hundred stars, sorted by stars, descending. *)
Lemma C3_sort_order_witness :
  queryString stars_100 "q=stars:100&sort=stars&order=desc"
  ∧ ∃ ord, range (vals stars_100) ord
    ∧ (Sort stars_100 = "" →
         "q=stars:100&sort=stars&order=desc" = q_segment ord stars_100
         ∧ (Forall (λ s, count "order=" s = 0%nat) (q_supplied stars_100) →
            count "order=" "q=stars:100&sort=stars&order=desc" = 0%nat))
    ∧ (Sort stars_100 ≠ "" →
         suffix (sort_order stars_100) "q=stars:100&sort=stars&order=desc" = true
         ∧ (has_terms stars_100 →
            "q=stars:100&sort=stars&order=desc"
            = q_segment ord stars_100 +:+ "&" +:+ sort_order stars_100)
         ∧ (¬ has_terms stars_100 →
            "q=stars:100&sort=stars&order=desc" = sort_order stars_100)).
Proof.
  assert (H : queryString stars_100 "q=stars:100&sort=stars&order=desc").
  { exists [("stars", "100")]. split; by vm_compute. }
  split; [exact H|]. exact (C3_sort_order _ _ H).
Defined.

(** The terms of one key: the filter slot of that key, when its value is
    meaningful. *)
Lemma with_key_slot o ord k c v :
  range (vals o) ord →
  filter (λ f, f.2.1 = k) (filters o) = [(c, (k, v))] →
  with_key k ord = if c then [(k, v)] else [].
Proof.
  intros Hr Hf.
  assert (Hp : with_key k ord ≡ₚ if c then [(k, v)] else []).
  { unfold with_key. rewrite (range_entries _ _ Hr). unfold entries.
    rewrite (filter_select (λ kv, kv.1 = k)), Hf. by destruct c. }
  destruct c; [by apply Permutation_singleton_r|by apply Permutation_nil_r].
Qed.

(** C2: the loop writes no [in] term when no location flag is set, and
    otherwise exactly one, whose value is the comma-join of the flags that
    are set, in the order name, description, readme. *)
Theorem C2_in_term o out :
  queryString o out →
  ∃ ord, range (vals o) ord
    ∧ out = join "&" (params ord o)
    ∧ with_key "in" ord = in_term o.
Proof.
  intros (ord & Hr & ->). exists ord. split; [done|].
  split; [by apply queryString_at_params|].
  rewrite (with_key_slot o ord "in" _ _ Hr eq_refl).
  unfold in_term, in_value, in_parts.
  by destruct (InName o), (InDescription o), (InReadme o).
Qed.

(** C2 at the flags [in-name] and [in-readme]. *)
Lemma C2_in_term_witness :
  queryString name_readme "q=in:name,readme"
  ∧ ∃ ord, range (vals name_readme) ord
    ∧ "q=in:name,readme" = join "&" (params ord name_readme)
    ∧ with_key "in" ord = in_term name_readme.
Proof.
  assert (H : queryString name_readme "q=in:name,readme").
  { exists [("in", "name,readme")]. split; by vm_compute. }
  split; [exact H|]. exact (C2_in_term _ _ H).
Defined.

(** C4: the loop writes a [size] term exactly when the size is above 0 and
    a [stars] term exactly when the stars are above 0, and a [forks] term
    exactly when the forks are 0 or more. *)
Theorem C4_integer_filters o out :
  queryString o out →
  ∃ ord, range (vals o) ord
    ∧ out = join "&" (params ord o)
    ∧ with_key "size" ord
      = (if decide (Size o > 0) then [("size", Itoa (Size o))] else [])
    ∧ with_key "stars" ord
      = (if decide (Stars o > 0) then [("stars", Itoa (Stars o))] else [])
    ∧ with_key "forks" ord
      = (if decide (Forks o >= 0) then [("forks", Itoa (Forks o))] else []).
Proof.
  intros (ord & Hr & ->). exists ord. split; [done|].
  split; [by apply queryString_at_params|].
  rewrite (with_key_slot o ord "size" _ _ Hr eq_refl).
  rewrite (with_key_slot o ord "stars" _ _ Hr eq_refl).
  rewrite (with_key_slot o ord "forks" _ _ Hr eq_refl).
  by repeat split; case_bool_decide; case_decide.
Qed.

(** C4 at [forks], [size] and [stars] all 0: only [forks:0] is written. *)
Lemma C4_integer_filters_witness :
  queryString zero_counts "q=forks:0"
  ∧ ∃ ord, range (vals zero_counts) ord
    ∧ "q=forks:0" = join "&" (params ord zero_counts)
    ∧ with_key "size" ord
      = (if decide (Size zero_counts > 0)
         then [("size", Itoa (Size zero_counts))] else [])
    ∧ with_key "stars" ord
      = (if decide (Stars zero_counts > 0)
         then [("stars", Itoa (Stars zero_counts))] else [])
    ∧ with_key "forks" ord
      = (if decide (Forks zero_counts >= 0)
         then [("forks", Itoa (Forks zero_counts))] else []).
Proof.
  assert (H : queryString zero_counts "q=forks:0").
  { exists [("forks", "0")]. split; by vm_compute. }
  split; [exact H|]. exact (C4_integer_filters _ _ H).
Defined.

(** C6: with a keyword, the output is [q=], the keyword as it is, then
    every filter term with a [+] before it, then the sort segment if
    any. *)
Theorem C6_keyword_first o out :
  Keyword (PosArgs o) ≠ "" →
  queryString o out →
  ∃ ord, range (vals o) ord
    ∧ out = "q=" +:+ Keyword (PosArgs o) +:+ plus "+" (term <$> ord)
            +:+ (if decide (Sort o ≠ "") then "&" +:+ sort_order o else "").
Proof.
  intros Hk (ord & Hr & ->). exists ord. split; [done|].
  rewrite (queryString_at_segments _ _ Hr).
  unfold q_segment, q_terms, sort_segment. fold (sort_order o).
  assert (Ht : has_terms o) by by left.
  destruct (decide (has_terms o)); [|done].
  destruct (decide (Keyword (PosArgs o) ≠ "")); [|done].
  cbn [app]. rewrite join_cons, !app_assoc.
  by destruct (decide (Sort o ≠ "")).
Qed.

(** C6 at the keyword [foo] and the language [Go]. *)
Lemma C6_keyword_first_witness :
  Keyword (PosArgs foo_Go) ≠ ""
  ∧ queryString foo_Go "q=foo+language:Go"
  ∧ ∃ ord, range (vals foo_Go) ord
    ∧ "q=foo+language:Go"
      = "q=" +:+ Keyword (PosArgs foo_Go) +:+ plus "+" (term <$> ord)
        +:+ (if decide (Sort foo_Go ≠ "") then "&" +:+ sort_order foo_Go else "").
Proof.
  assert (Hk : Keyword (PosArgs foo_Go) ≠ "") by done.
  assert (H : queryString foo_Go "q=foo+language:Go").
  { exists [("language", "Go")]. split; by vm_compute. }
  split; [exact Hk|]. split; [exact H|]. exact (C6_keyword_first _ _ Hk H).
Defined.

(** ** Splitting *)

Lemma split_no_sep c s : mem c s = false → split c s = [s].
Proof.
  induction s as [|b s IH]; [done|]. intros [Hb Hs]%mem_cons_false.
  cbn [split]. rewrite decide_False by done. by rewrite IH.
Qed.

Lemma split_app c a b :
  mem c a = false → split c (a +:+ String c b) = a :: split c b.
Proof.
  induction a as [|y a IH].
  - intros _. rewrite app_nil_l. cbn [split]. by rewrite decide_True.
  - intros [Hy Ha]%mem_cons_false. rewrite app_cons. cbn [split].
    rewrite decide_False by done. by rewrite IH.
Qed.

Lemma split_join c l :
  l ≠ [] → Forall (λ s, mem c s = false) l →
  split c (join (String c "") l) = l.
Proof.
  intros Hne Hl. induction Hl as [|y l Hy Hl IH]; [done|].
  destruct l as [|z l]; [by apply split_no_sep|].
  change (join (String c "") (y :: z :: l))
    with (y +:+ String c "" +:+ join (String c "") (z :: l)).
  rewrite app_cons, app_nil_l, split_app by done. by rewrite IH.
Qed.

Lemma mem_join c sep l :
  mem c sep = false → Forall (λ s, mem c s = false) l →
  mem c (join sep l) = false.
Proof.
  intros Hsep Hl. induction Hl as [|y l Hy Hl IH]; [done|].
  destruct l as [|z l]; [done|].
  change (join sep (y :: z :: l)) with (y +:+ sep +:+ join sep (z :: l)).
  by rewrite !mem_app, Hy, Hsep, IH.
Qed.

(** The terms have no separator when the supplied values have none. *)
Lemma mem_q_terms c o ord :
  c ≠ ":"%char → mem c "-0123456789" = false →
  Forall (λ s, mem c s = false) keys →
  Forall (λ s, mem c s = false) in_values →
  mem c "true" = false →
  range (vals o) ord →
  Forall (λ s, mem c s = false) (q_supplied o) →
  Forall (λ s, mem c s = false) (q_terms ord o).
Proof.
  intros Hc Hd Hk Hi Ht Hr Hs.
  apply (q_terms_Forall (λ s, mem c s = false)); try done.
  - intros k v Hk' Hv. unfold term. cbn [fst snd].
    rewrite !mem_app, Hk', Hv. simpl. by rewrite decide_False.
  - intros n. by apply mem_Itoa.
Qed.

Lemma q_terms_nonempty o ord :
  range (vals o) ord → has_terms o → q_terms ord o ≠ [].
Proof.
  intros Hr [Hk|Hf]; unfold q_terms.
  - by rewrite decide_True.
  - intros [_ Hn%fmap_nil_inv]%app_nil. subst ord.
    apply range_entries, Permutation_nil_l in Hr. symmetry in Hr.
    by apply select_nil in Hr.
Qed.

(** C5 (as stated): no escaping is applied, so a supplied value can add
    a parameter; the topic [go&sort=forks] gives a query whose parameters
    are a [q] and a [sort] that was never asked for. *)
Lemma C5_topic_adds_sort :
  range (vals topic_amp) [("topic", "go&sort=forks")]
  ∧ queryString_at [("topic", "go&sort=forks")] topic_amp = "q=topic:go&sort=forks"
  ∧ parameters "q=topic:go&sort=forks" = ["q=topic:go"; "sort=forks"]
  ∧ ¬ syntax_kept topic_amp [("topic", "go&sort=forks")] "q=topic:go&sort=forks".
Proof.
  split; [by vm_compute|]. split; [by vm_compute|]. split; [by vm_compute|].
  intros [H _]. by vm_compute in H.
Qed.

(** C5 (amended): the output is the [&]-join of the [q] parameter ([q=]
    and the [+]-join of the keyword and of one [key:value] term for each
    meaningful filter), [sort=<field>] and [order=<order>], with every
    value written as it is, without escaping; when no supplied value holds
    [&] or [+], reading the output back at [&] and at [+] gives these
    parameters and terms. *)
Theorem C5_query_syntax o out :
  queryString o out →
  ∃ ord, range (vals o) ord
    ∧ ord ≡ₚ entries o
    ∧ out = join "&" (params ord o)
    ∧ (Forall no_separator (supplied o) → syntax_kept o ord out).
Proof.
  intros (ord & Hr & ->). exists ord. split; [done|].
  split; [by apply range_entries|].
  rewrite (queryString_at_params _ _ Hr). split; [done|].
  intros Hs. apply Forall_app in Hs as [Hq Hso].
  apply Forall_cons in Hso as [[HS _] Hso]. apply Forall_cons in Hso as [[HO _] _].
  assert (Hamp : Forall (λ s, mem "&" s = false) (q_terms ord o)).
  { apply mem_q_terms; try done; try (apply (bool_decide_unpack _); by vm_compute).
    eapply Forall_impl; [exact Hq|]. by intros s [? ?]. }
  assert (Hpl : Forall (λ s, mem "+" s = false) (q_terms ord o)).
  { apply mem_q_terms; try done; try (apply (bool_decide_unpack _); by vm_compute).
    eapply Forall_impl; [exact Hq|]. by intros s [? ?]. }
  assert (Hq_amp : mem "&" ("q=" +:+ join "+" (q_terms ord o)) = false).
  { rewrite mem_app. by rewrite (mem_join "&" "+" _ eq_refl Hamp). }
  assert (Hpar : Forall (λ s, mem "&" s = false) (params ord o)).
  { unfold params. apply Forall_app. split.
    - destruct (decide (has_terms o)); [by constructor|done].
    - destruct (decide (Sort o ≠ "")); [|done]. constructor.
      + by rewrite mem_app, HS.
      + destruct (decide (Order o ≠ "")); [|done].
        constructor; [|done]. by rewrite mem_app, HO. }
  assert (Hread : parameters (join "&" (params ord o)) = params ord o).
  { unfold parameters. destruct (params ord o) as [|x l] eqn:Hp; [done|].
    rewrite decide_False; [rewrite <-Hp in *; apply split_join; [by rewrite Hp|done]|].
    rewrite join_cons. intros [Hx _]%app_eq_nil. subst x. revert Hp.
    unfold params.
    destruct (decide (has_terms o)), (decide (Sort o ≠ "")); by cbn [app]. }
  split; [done|]. unfold read_terms. rewrite Hread. unfold params.
  destruct (decide (has_terms o)) as [Ht|Ht].
  - cbn [app q_value "+:+"]. apply split_join; [by apply q_terms_nonempty|done].
  - assert (Hnil : q_terms ord o = []).
    { unfold q_terms. unfold has_terms in Ht.
      rewrite (range_nil o ord Hr) by tauto.
      destruct (decide (Keyword (PosArgs o) ≠ "")); [tauto|done]. }
    rewrite Hnil. by destruct (decide (Sort o ≠ "")).
Qed.

(** C5 at a hundred stars, sorted by stars, descending. *)
Lemma C5_query_syntax_witness :
  queryString stars_100 "q=stars:100&sort=stars&order=desc"
  ∧ ∃ ord, range (vals stars_100) ord
    ∧ ord ≡ₚ entries stars_100
    ∧ "q=stars:100&sort=stars&order=desc" = join "&" (params ord stars_100)
    ∧ (Forall no_separator (supplied stars_100) →
       syntax_kept stars_100 ord "q=stars:100&sort=stars&order=desc").
Proof.
  assert (H : queryString stars_100 "q=stars:100&sort=stars&order=desc").
  { exists [("stars", "100")]. split; by vm_compute. }
  split; [exact H|]. exact (C5_query_syntax _ _ H).
Defined.

End QueryClaims.

(** * The claims about a run *)

Section RunClaims.
Import Str StrFacts.

Lemma rows_app opts l1 l2 : rows opts (l1 ++ l2) = rows opts l1 +:+ rows opts l2.
Proof. induction l1 as [|x l1 IH]; [done|]. simpl. by rewrite IH, app_assoc. Qed.

(** The loop over the items appends their lines to the tab writer and
    touches nothing else. *)
Lemma for_items_rows opts items s buf :
  TabWriter s = Some buf →
  for_items opts items s
  = (tt, {| Stderr := Stderr s; Requests := Requests s; Body := Body s;
            TabWriter := Some (buf +:+ rows opts items); Stdout := Stdout s |}).
Proof.
  revert s buf. induction items as [|item items IH]; intros s buf Hs.
  - destruct s. simpl in *. subst. by rewrite app_nil_r.
  - cbn [for_items rows]. unfold seq, mbind, IO_bind, write_item, row.
    destruct (decide (Language opts = "")).
    + unfold seq, mbind, IO_bind, Fprint. rewrite Hs. cbn [TabWriter].
      erewrite IH by reflexivity. cbn. by rewrite !app_assoc.
    + unfold seq, mbind, IO_bind, mret, IO_ret, Fprint. rewrite Hs.
      erewrite IH by reflexivity. cbn. by rewrite !app_assoc.
Qed.

(** A whole run, by outcome. *)
Lemma main_outcome w :
  main w =
  match outcome_of w with
  | Help =>
      (0, {| Stderr := ""; Requests := []; Body := NoBody; TabWriter := None;
             Stdout := parse_error_text w +:+ NL |})
  | ParseFailure err =>
      (1, {| Stderr := (Error err +:+ NL) +:+ diagnostic "error in parsing options" err;
             Requests := []; Body := NoBody; TabWriter := None; Stdout := "" |})
  | TransportFailure opts err =>
      (1, {| Stderr := diagnostic "error in requesting" err;
             Requests := [uri_of w opts]; Body := NoBody;
             TabWriter := None; Stdout := "" |})
  | DecodeFailure opts err =>
      (1, {| Stderr := diagnostic "error in parsing reponse" err;
             Requests := [uri_of w opts]; Body := BodyOpen;
             TabWriter := None; Stdout := "" |})
  | Success opts r =>
      (0, {| Stderr := ""; Requests := [uri_of w opts]; Body := BodyOpen;
             TabWriter := Some ""; Stdout := rows opts (Items r) |})
  end.
Proof.
  unfold main, exec, outcome_of, parse_error_text, flags_Parse.
  unfold mbind at 1. unfold IO_bind at 1.
  destruct (Parse w) as [opts|[[] msg|msg]]; try done.
  fold (uri_of w opts). unfold mbind, IO_bind, http_Get.
  destruct (Get w (uri_of w opts)) as [body|err]; [|done].
  destruct (Decode w body) as [r|err]; [|done].
  unfold seq, mbind, IO_bind, NewWriter.
  erewrite for_items_rows by reflexivity. done.
Qed.


(** The query of the request is an output of [queryString]. *)
Lemma uri_of_queryString w opts :
  world_ok w →
  ∃ q, queryString opts q
       ∧ uri_of w opts = GitHubAPIURI opts +:+ "/repositories?" +:+ q.
Proof.
  intros Hw. exists (queryString_at (MapOrder w (vals opts)) opts).
  split; [|done]. exists (MapOrder w (vals opts)). split; [apply Hw|done].
Qed.

(** Without keyword, filter and sort field the request goes to
    [<base>/repositories?]. *)
Example request_defaults :
  Requests (main world_no_items).2
  = ["https://api.github.com/search/repositories?"].
Proof. by vm_compute. Qed.



(** A response without items: status 0 and nothing written. *)
Example run_no_items :
  (main world_no_items).1 = 0
  ∧ Stderr (main world_no_items).2 = ""
  ∧ Stdout (main world_no_items).2 = "".
Proof. by vm_compute. Qed.

(** A body that is not JSON: status 1, the diagnostic on the error
    stream, nothing on standard output. *)
Example run_bad_json :
  (main world_bad_json).1 = 1
  ∧ Stderr (main world_bad_json).2
    = "error in parsing reponse: invalid character '<' looking for beginning of value"
      +:+ NL
  ∧ Stdout (main world_bad_json).2 = "".
Proof. by vm_compute. Qed.

(** C8: on success the text written is one line for each item, in order:
    the full name, a separator and the description, with the language in
    brackets, shortened, and a separator before them when the caller gave
    no language filter, and without them when the caller gave one;
    [shortenLanguage] maps [Emacs Lisp] to [elisp], [JavaScript] to [JS],
    [CoffeeScript] to [Coffee] and any other string, the empty one too, to
    itself. *)
Theorem C8_rows w opts r :
  outcome_of w = Success opts r →
  Stdout (main w).2 = rows opts (Items r)
  ∧ (∀ item, Language opts = "" →
       row opts item
       = "[" +:+ shortenLanguage (Item.Language item) +:+ "]" +:+ TAB
         +:+ Item.FullName item +:+ TAB +:+ Item.Description item +:+ NL)
  ∧ (∀ item, Language opts ≠ "" →
       row opts item
       = Item.FullName item +:+ TAB +:+ Item.Description item +:+ NL)
  ∧ shortenLanguage "Emacs Lisp" = "elisp"
  ∧ shortenLanguage "JavaScript" = "JS"
  ∧ shortenLanguage "CoffeeScript" = "Coffee"
  ∧ (∀ lang, lang ≠ "Emacs Lisp" → lang ≠ "JavaScript" → lang ≠ "CoffeeScript" →
       shortenLanguage lang = lang)
  ∧ shortenLanguage "" = "".
Proof.
  intros Hw. rewrite main_outcome, Hw. cbn [snd Stdout].
  repeat split; try done.
  - intros item Hl. unfold row. rewrite decide_True by done.
    by rewrite !app_assoc.
  - intros item Hl. unfold row. by rewrite decide_False.
  - intros lang H1 H2 H3. unfold shortenLanguage. by rewrite !decide_False.
Qed.

(** C8 at a response with two items. *)
Lemma C8_rows_witness :
  outcome_of world_two_items = Success defaults two_items
  ∧ Stdout (main world_two_items).2
    = "[]" +:+ TAB +:+ "a/b" +:+ TAB +:+ "d" +:+ NL
      +:+ "[JS]" +:+ TAB +:+ "c/d" +:+ TAB +:+ "" +:+ NL.
Proof.
  assert (H : outcome_of world_two_items = Success defaults two_items)
    by reflexivity.
  split; [exact H|].
  destruct (C8_rows world_two_items defaults two_items H) as [-> _].
  reflexivity.
Defined.

(** C9 (as stated): [exec] has no call that closes the response body; after
    a successful run the body is still open. *)
Lemma C9_body_left_open :
  (main world_two_items).1 = 0
  ∧ Body (main world_two_items).2 = BodyOpen
  ∧ ¬ body_released (main world_two_items).2.
Proof.
  split; [by vm_compute|]. split; [by vm_compute|].
  intros H. apply H. by vm_compute.
Qed.

(** A call of [Body_Close] would release the body. *)
Lemma Body_Close_released s : body_released (Body_Close s).2.
Proof. unfold body_released. cbn. by destruct (Body s). Qed.

(** C9 (amended): [exec] never closes the response body: after every run
    that got a response, a success or a decode failure, the body is open
    when [exec] returns, and no run leaves a closed body. *)
Theorem C9_body_never_closed w :
  Body (main w).2 ≠ BodyClosed
  ∧ Body (main w).2
    = match outcome_of w with
      | Success _ _ | DecodeFailure _ _ => BodyOpen
      | Help | ParseFailure _ | TransportFailure _ _ => NoBody
      end.
Proof. rewrite main_outcome. by destruct (outcome_of w). Qed.

(** C10: without a language filter, the line of an item whose language is
    empty begins with [[]] and a separator. *)
Theorem C10_empty_language w opts r pre item post :
  outcome_of w = Success opts r →
  Language opts = "" →
  Items r = pre ++ item :: post →
  Item.Language item = "" →
  Stdout (main w).2
  = rows opts pre
    +:+ ("[]" +:+ TAB +:+ Item.FullName item +:+ TAB +:+ Item.Description item +:+ NL)
    +:+ rows opts post.
Proof.
  intros Hw Hl Hi He. rewrite main_outcome, Hw. cbn [snd Stdout].
  rewrite Hi, rows_app. cbn [rows]. unfold row at 1.
  rewrite decide_True, He by done. by rewrite !app_assoc.
Qed.

(** C10 at a response whose first item has no language. *)
Lemma C10_empty_language_witness :
  outcome_of world_two_items = Success defaults two_items
  ∧ Language defaults = ""
  ∧ Stdout (main world_two_items).2
    = rows defaults []
      +:+ ("[]" +:+ TAB +:+ "a/b" +:+ TAB +:+ "d" +:+ NL)
      +:+ rows defaults [{| Item.License := ""; Item.Language := "JavaScript";
                            Item.FullName := "c/d"; Item.Description := "" |}].
Proof.
  split; [reflexivity|]. split; [reflexivity|].
  exact (C10_empty_language world_two_items defaults two_items [] _ _
           eq_refl eq_refl eq_refl eq_refl).
Defined.

End RunClaims.

(** * More about [queryString] *)

Section QueryMore.
Import Str StrFacts.

Lemma length_app (s t : string) :
  String.length (s +:+ t) = (String.length s + String.length t)%nat.
Proof. induction s as [|a s IH]; [done|]. rewrite app_cons. simpl. by rewrite IH. Qed.

(** X1: the output is the empty string exactly when there is no keyword, no
    meaningful filter and no sort field; an order alone gives the empty
    string. *)
Theorem query_empty_iff o out :
  queryString o out → (out = "" ↔ ¬ has_terms o ∧ Sort o = "").
Proof.
  intros (ord & Hr & ->). rewrite (queryString_at_segments _ _ Hr).
  unfold q_segment, sort_segment.
  destruct (decide (has_terms o)) as [Ht|Ht].
  - split; [|tauto]. by rewrite app_assoc.
  - destruct (decide (Sort o ≠ "")) as [HS|HS].
    + split; [|tauto]. by rewrite !app_nil_l.
    + split; [|done]. intros _. split; [done|]. by apply dec_stable.
Qed.

(** X1 at an order without sort field. *)
Lemma query_empty_iff_witness :
  queryString just_order ""
  ∧ ("" = "" ↔ ¬ has_terms just_order ∧ Sort just_order = "").
Proof.
  assert (H : queryString just_order "").
  { exists []. split; by vm_compute. }
  split; [exact H|]. exact (query_empty_iff _ _ H).
Defined.

Lemma length_select {A} (l : list (bool * A)) : (length (select l) ≤ length l)%nat.
Proof. induction l as [|[[] y] l IH]; simpl; lia. Qed.

Lemma range_sym o : range (vals o) (entries o).
Proof. unfold range. symmetry. apply range_entries, range_run. Qed.

(** X2: the terms written have pairwise distinct keys, all among the
    thirteen fixed keys, so there are at most thirteen of them. *)
Theorem query_keys o out :
  queryString o out →
  ∃ ord, range (vals o) ord
    ∧ out = join "&" (params ord o)
    ∧ NoDup ord.*1
    ∧ Forall (λ k, k ∈ keys) ord.*1
    ∧ (length ord ≤ 13)%nat.
Proof.
  intros (ord & Hr & ->). exists ord. split; [done|].
  split; [by apply queryString_at_params|].
  pose proof (range_entries _ _ Hr) as He. split; [|split].
  - unfold range in Hr. rewrite Hr. apply NoDup_fst_map_to_list.
  - rewrite He. apply Forall_fmap. unfold entries. apply select_Forall.
    apply Forall_forall. intros f Hf. rewrite <-(filters_keys o).
    by apply (list_elem_of_fmap_2 fst), (list_elem_of_fmap_2 snd).
  - rewrite (Permutation_length He). unfold entries.
    etrans; [apply length_select|]. reflexivity.
Qed.

(** X2 at the language [Go] and the topic [cli]. *)
Lemma query_keys_witness :
  queryString Go_cli "q=topic:cli+language:Go"
  ∧ ∃ ord, range (vals Go_cli) ord
    ∧ "q=topic:cli+language:Go" = join "&" (params ord Go_cli)
    ∧ NoDup ord.*1
    ∧ Forall (λ k, k ∈ keys) ord.*1
    ∧ (length ord ≤ 13)%nat.
Proof.
  assert (H : queryString Go_cli "q=topic:cli+language:Go").
  { exists [("topic", "cli"); ("language", "Go")]. split; [|by vm_compute].
    unfold range. rewrite <-(range_sym Go_cli). vm_compute. apply perm_swap. }
  split; [exact H|]. exact (query_keys _ _ H).
Defined.

(** X3: with at most one meaningful filter the output is determined: the
    order of the loop has nothing to choose. *)
Theorem query_unique o out1 out2 :
  (length (entries o) ≤ 1)%nat →
  queryString o out1 → queryString o out2 → out1 = out2.
Proof.
  intros Hl (ord1 & Hr1 & ->) (ord2 & Hr2 & ->).
  apply range_entries in Hr1, Hr2.
  assert (Heq : ∀ ord, ord ≡ₚ entries o → ord = entries o).
  { intros ord Hp. destruct (entries o) as [|e [|e' l]]; simpl in Hl.
    - by apply Permutation_nil_r.
    - by apply Permutation_singleton_r.
    - lia. }
  by rewrite (Heq _ Hr1), (Heq _ Hr2).
Qed.

(** X3 at the keyword [foo] and the language [Go]. *)
Lemma query_unique_witness :
  (length (entries foo_Go) ≤ 1)%nat
  ∧ queryString foo_Go "q=foo+language:Go"
  ∧ queryString foo_Go (queryString_run foo_Go)
  ∧ "q=foo+language:Go" = queryString_run foo_Go.
Proof.
  assert (Hl : (length (entries foo_Go) ≤ 1)%nat) by (vm_compute; lia).
  assert (H1 : queryString foo_Go "q=foo+language:Go").
  { exists [("language", "Go")]. split; by vm_compute. }
  assert (H2 : queryString foo_Go (queryString_run foo_Go))
    by apply queryString_total.
  split; [exact Hl|]. split; [exact H1|]. split; [exact H2|].
  exact (query_unique _ _ _ Hl H1 H2).
Defined.

Lemma plus_join sep l : l ≠ [] → plus sep l = sep +:+ join sep l.
Proof. destruct l as [|x l]; [done|]. intros _. by rewrite join_cons. Qed.

Lemma length_plus_perm sep l1 l2 :
  l1 ≡ₚ l2 → String.length (plus sep l1) = String.length (plus sep l2).
Proof.
  induction 1 as [|x l1 l2 _ IH|x y l|l1 l2 l3 _ IH1 _ IH2]; cbn [plus].
  - done.
  - rewrite !length_app. lia.
  - rewrite !length_app. lia.
  - congruence.
Qed.

Lemma length_join_perm sep l1 l2 :
  l1 ≡ₚ l2 → String.length (join sep l1) = String.length (join sep l2).
Proof.
  intros Hp. destruct (decide (l1 = [])) as [->|Hne].
  - apply Permutation_nil_l in Hp. by subst.
  - assert (Hne2 : l2 ≠ []).
    { intros ->. by apply Permutation_nil_r in Hp. }
    pose proof (length_plus_perm sep _ _ Hp) as H.
    rewrite (plus_join _ _ Hne), (plus_join _ _ Hne2), !length_app in H. lia.
Qed.

(** X4: all the strings [queryString] may return for given options have
    the same length: the order of the loop moves the terms and changes
    nothing else. *)
Theorem query_length o out1 out2 :
  queryString o out1 → queryString o out2 →
  String.length out1 = String.length out2.
Proof.
  intros (ord1 & Hr1 & ->) (ord2 & Hr2 & ->).
  rewrite !queryString_at_segments by done. rewrite !length_app. f_equal.
  unfold q_segment. destruct (decide (has_terms o)); [|done].
  rewrite !length_app. f_equal. apply length_join_perm. unfold q_terms.
  apply Permutation_app_head, fmap_Permutation.
  apply range_entries in Hr1, Hr2. by rewrite Hr1, Hr2.
Qed.

(** X4 at the language [Go] and the topic [cli], in both orders. *)
Lemma query_length_witness :
  queryString Go_cli "q=topic:cli+language:Go"
  ∧ queryString Go_cli "q=language:Go+topic:cli"
  ∧ String.length "q=topic:cli+language:Go"
    = String.length "q=language:Go+topic:cli".
Proof.
  assert (H1 : queryString Go_cli "q=topic:cli+language:Go").
  { exists [("topic", "cli"); ("language", "Go")]. split; [|by vm_compute].
    unfold range. rewrite <-(range_sym Go_cli). vm_compute. apply perm_swap. }
  assert (H2 : queryString Go_cli "q=language:Go+topic:cli").
  { exists [("language", "Go"); ("topic", "cli")]. split; [|by vm_compute].
    unfold range. rewrite <-(range_sym Go_cli). by vm_compute. }
  split; [exact H1|]. split; [exact H2|]. exact (query_length _ _ _ H1 H2).
Defined.

Lemma entries_NoDup o : NoDup (entries o).*1.
Proof.
  pose proof (range_sym o) as Hr. unfold range in Hr. rewrite Hr.
  apply NoDup_fst_map_to_list.
Qed.

Lemma entries_no_colon o : Forall (λ kv, mem ":" kv.1 = false) (entries o).
Proof.
  unfold entries. apply select_Forall. apply Forall_forall. intros f Hf.
  assert (Hk : f.2.1 ∈ keys).
  { rewrite <-(filters_keys o).
    by apply (list_elem_of_fmap_2 fst), (list_elem_of_fmap_2 snd). }
  revert Hk. generalize (f.2.1). apply Forall_forall.
  apply (bool_decide_unpack _). by vm_compute.
Qed.

(** Two strings that start with keys without [:] followed by [:] start
    with the same key when they are equal. *)
Lemma key_cut k1 k2 a b :
  mem ":" k1 = false → mem ":" k2 = false →
  k1 +:+ String ":" a = k2 +:+ String ":" b → k1 = k2.
Proof.
  revert k2. induction k1 as [|c k1 IH]; intros [|d k2] H1 H2 Heq; try done.
  - rewrite app_nil_l, app_cons in Heq. apply mem_cons_false in H2 as [H2 _].
    congruence.
  - rewrite app_nil_l, app_cons in Heq. apply mem_cons_false in H1 as [H1 _].
    congruence.
  - rewrite !app_cons in Heq. injection Heq as -> Heq.
    apply mem_cons_false in H1 as [_ H1]. apply mem_cons_false in H2 as [_ H2].
    f_equal. by apply IH.
Qed.

Lemma any_filter_entries o : entries o ≠ [] → any_filter o.
Proof.
  intros Hne. destruct (decide (any_filter o)) as [|Hn]; [done|].
  by apply select_nil in Hn.
Qed.

(** X5: with two or more meaningful filters the output is not determined:
    [queryString] may return at least two different strings. *)
Theorem query_order_open o :
  (2 ≤ length (entries o))%nat →
  ∃ out1 out2, queryString o out1 ∧ queryString o out2 ∧ out1 ≠ out2.
Proof.
  intros Hl.
  pose proof (entries_NoDup o) as Hnd. pose proof (entries_no_colon o) as Hc.
  pose proof (range_sym o) as Hr1.
  assert (Ht : has_terms o).
  { right. apply any_filter_entries. intros He. rewrite He in Hl. simpl in Hl. lia. }
  destruct (entries o) as [|[k1 v1] [|[k2 v2] rest]]; simpl in Hl; try lia.
  assert (Hr2 : range (vals o) ((k2, v2) :: (k1, v1) :: rest)).
  { unfold range in *. rewrite <-Hr1. apply perm_swap. }
  exists (queryString_at ((k1, v1) :: (k2, v2) :: rest) o),
         (queryString_at ((k2, v2) :: (k1, v1) :: rest) o).
  split; [by exists ((k1, v1) :: (k2, v2) :: rest)|].
  split; [by exists ((k2, v2) :: (k1, v1) :: rest)|]. intros Heq.
  rewrite !queryString_at_segments in Heq by done.
  unfold q_segment, q_terms in Heq.
  destruct (decide (has_terms o)); [|done].
  apply Forall_cons in Hc as [Hc1 Hc]. apply Forall_cons in Hc as [Hc2 _].
  apply NoDup_cons in Hnd as [Hnd _]. apply Hnd.
  assert (k1 = k2) as ->; [|apply list_elem_of_here].
  rewrite !fmap_cons in Heq. unfold term in Heq. cbn [fst snd] in Heq.
  destruct (decide (Keyword (PosArgs o) ≠ "")); cbn [app] in Heq;
    rewrite !join_cons in Heq; cbn [plus] in Heq;
    rewrite ?app_assoc, ?app_cons, ?app_nil_l in Heq.
  - injection Heq as Heq. apply (inj (String.app _)) in Heq.
    injection Heq as Heq. by apply key_cut in Heq.
  - injection Heq as Heq. by apply key_cut in Heq.
Qed.

(** X5 at the language [Go] and the topic [cli]. *)
Lemma query_order_open_witness :
  (2 ≤ length (entries Go_cli))%nat
  ∧ ∃ out1 out2,
      queryString Go_cli out1 ∧ queryString Go_cli out2 ∧ out1 ≠ out2.
Proof.
  assert (Hl : (2 ≤ length (entries Go_cli))%nat) by (vm_compute; lia).
  split; [exact Hl|]. exact (query_order_open _ Hl).
Defined.

(** [Itoa] gives different texts for different numbers. *)
Lemma Itoa_inj n m : Itoa n = Itoa m → n = m.
Proof.
  assert (Hnil : ∀ z, Z.to_int z ≠ Decimal.Pos Decimal.Nil
                      ∧ Z.to_int z ≠ Decimal.Neg Decimal.Nil).
  { intros [|p|p]; simpl; split; try done;
      intros [= H]; by apply DecimalPos.Unsigned.to_uint_nonnil in H. }
  unfold Itoa. intros H. apply DecimalZ.to_int_inj.
  destruct (Hnil n) as [Hn1 Hn2], (Hnil m) as [Hm1 Hm2].
  pose proof (NilZero.isi _ Hn1 Hn2) as H1.
  pose proof (NilZero.isi _ Hm1 Hm2) as H2.
  rewrite H in H1. congruence.
Qed.

(** X6: the numeric terms determine the numbers: two option sets whose
    [forks] terms are the same have the same forks when one of them writes
    the term, and so for [size] and [stars]. *)
Theorem numeric_terms_inj o1 o2 ord1 ord2 :
  range (vals o1) ord1 → range (vals o2) ord2 →
  (Forks o1 >= 0 → with_key "forks" ord1 = with_key "forks" ord2 →
   Forks o1 = Forks o2)
  ∧ (Size o1 > 0 → with_key "size" ord1 = with_key "size" ord2 →
     Size o1 = Size o2)
  ∧ (Stars o1 > 0 → with_key "stars" ord1 = with_key "stars" ord2 →
     Stars o1 = Stars o2).
Proof.
  intros Hr1 Hr2.
  rewrite (with_key_slot o1 ord1 "forks" _ _ Hr1 eq_refl).
  rewrite (with_key_slot o2 ord2 "forks" _ _ Hr2 eq_refl).
  rewrite (with_key_slot o1 ord1 "size" _ _ Hr1 eq_refl).
  rewrite (with_key_slot o2 ord2 "size" _ _ Hr2 eq_refl).
  rewrite (with_key_slot o1 ord1 "stars" _ _ Hr1 eq_refl).
  rewrite (with_key_slot o2 ord2 "stars" _ _ Hr2 eq_refl).
  repeat split; intros Hpos; rewrite (bool_decide_eq_true_2 _ Hpos);
    case_bool_decide; intros [= Heq]; by apply Itoa_inj.
Qed.

(** X6 at three forks, a size of 20 and 100 stars, in two orders. *)
Lemma numeric_terms_inj_witness :
  range (vals counts) [("forks", "3"); ("size", "20"); ("stars", "100")]
  ∧ range (vals counts) [("stars", "100"); ("size", "20"); ("forks", "3")]
  ∧ Forks counts >= 0 ∧ Size counts > 0 ∧ Stars counts > 0
  ∧ Forks counts = Forks counts ∧ Size counts = Size counts
  ∧ Stars counts = Stars counts.
Proof.
  assert (H1 : range (vals counts)
                 [("forks", "3"); ("size", "20"); ("stars", "100")]).
  { unfold range. rewrite <-(range_sym counts). by vm_compute. }
  assert (H2 : range (vals counts)
                 [("stars", "100"); ("size", "20"); ("forks", "3")]).
  { unfold range. rewrite <-(range_sym counts). vm_compute.
    apply (reverse_Permutation [("forks", "3"); ("size", "20"); ("stars", "100")]). }
  destruct (numeric_terms_inj counts counts _ _ H1 H2) as (Hf & Hs & Ht).
  assert (Hf0 : Forks counts >= 0) by (vm_compute; discriminate).
  assert (Hs0 : Size counts > 0) by reflexivity.
  assert (Ht0 : Stars counts > 0) by reflexivity.
  split; [exact H1|]. split; [exact H2|]. split; [exact Hf0|].
  split; [exact Hs0|]. split; [exact Ht0|].
  split; [exact (Hf Hf0 eq_refl)|]. split; [exact (Hs Hs0 eq_refl)|].
  exact (Ht Ht0 eq_refl).
Defined.

Lemma all_digit_uint d : all digit (NilEmpty.string_of_uint d) = true.
Proof. induction d; simpl; try done. Qed.

(** The text of a number that is not negative: decimal digits, at least
    one. *)
Lemma Itoa_digits n : 0 <= n → all digit (Itoa n) = true ∧ Itoa n ≠ "".
Proof.
  intros Hn. unfold Itoa. destruct n as [|p|p]; [done| |lia].
  simpl. pose proof (DecimalPos.Unsigned.to_uint_nonnil p) as Hp.
  destruct (Pos.to_uint p) as [|u|u|u|u|u|u|u|u|u|u]; [done|..];
    (split; [exact (all_digit_uint _)|done]).
Qed.

(** X7: the values of the [forks], [size] and [stars] terms are decimal
    digits, at least one, and nothing else: no sign ever reaches the
    query. *)
Theorem numeric_terms_digits o out :
  queryString o out →
  ∃ ord, range (vals o) ord
    ∧ out = join "&" (params ord o)
    ∧ Forall (λ kv, all digit kv.2 = true ∧ kv.2 ≠ "")
        (with_key "forks" ord ++ with_key "size" ord ++ with_key "stars" ord).
Proof.
  intros (ord & Hr & ->). exists ord. split; [done|].
  split; [by apply queryString_at_params|].
  rewrite (with_key_slot o ord "forks" _ _ Hr eq_refl).
  rewrite (with_key_slot o ord "size" _ _ Hr eq_refl).
  rewrite (with_key_slot o ord "stars" _ _ Hr eq_refl).
  repeat apply Forall_app_2; case_bool_decide; try done;
    (constructor; [|done]); apply Itoa_digits; lia.
Qed.

(** X7 at three forks, a size of 20 and 100 stars. *)
Lemma numeric_terms_digits_witness :
  queryString counts "q=forks:3+size:20+stars:100"
  ∧ ∃ ord, range (vals counts) ord
    ∧ "q=forks:3+size:20+stars:100" = join "&" (params ord counts)
    ∧ Forall (λ kv, all digit kv.2 = true ∧ kv.2 ≠ "")
        (with_key "forks" ord ++ with_key "size" ord ++ with_key "stars" ord).
Proof.
  assert (H : queryString counts "q=forks:3+size:20+stars:100").
  { exists [("forks", "3"); ("size", "20"); ("stars", "100")].
    split; [|by vm_compute].
    unfold range. rewrite <-(range_sym counts). by vm_compute. }
  split; [exact H|]. exact (numeric_terms_digits _ _ H).
Defined.

(** X8: without a keyword and with a meaningful filter, the first term
    follows [q=] at once, with no [+] before it, and every other term has
    one [+] before it. *)
Theorem first_term_no_plus o out :
  Keyword (PosArgs o) = "" → any_filter o →
  queryString o out →
  ∃ kv ord, range (vals o) (kv :: ord)
    ∧ out = "q=" +:+ term kv +:+ plus "+" (term <$> ord)
            +:+ (if decide (Sort o ≠ "") then "&" +:+ sort_order o else "").
Proof.
  intros Hk Hf (ord & Hr & ->).
  destruct ord as [|kv ord].
  { apply range_entries, Permutation_nil_l in Hr. symmetry in Hr.
    by apply select_nil in Hr. }
  exists kv, ord. split; [done|].
  rewrite (queryString_at_segments _ _ Hr).
  unfold q_segment, q_terms, sort_segment. fold (sort_order o).
  assert (Ht : has_terms o) by by right.
  destruct (decide (has_terms o)); [|done].
  rewrite decide_False by (by intros Hn). cbn [app].
  rewrite fmap_cons, join_cons, !app_assoc.
  by destruct (decide (Sort o ≠ "")).
Qed.

(** X8 at the language [Go] and the topic [cli]. *)
Lemma first_term_no_plus_witness :
  Keyword (PosArgs Go_cli) = "" ∧ any_filter Go_cli
  ∧ queryString Go_cli "q=topic:cli+language:Go"
  ∧ ∃ kv ord, range (vals Go_cli) (kv :: ord)
    ∧ "q=topic:cli+language:Go"
      = "q=" +:+ term kv +:+ plus "+" (term <$> ord)
        +:+ (if decide (Sort Go_cli ≠ "") then "&" +:+ sort_order Go_cli else "").
Proof.
  assert (Hk : Keyword (PosArgs Go_cli) = "") by reflexivity.
  assert (Hf : any_filter Go_cli).
  { apply (bool_decide_unpack _). by vm_compute. }
  assert (H : queryString Go_cli "q=topic:cli+language:Go").
  { exists [("topic", "cli"); ("language", "Go")]. split; [|by vm_compute].
    unfold range. rewrite <-(range_sym Go_cli). vm_compute. apply perm_swap. }
  split; [exact Hk|]. split; [exact Hf|]. split; [exact H|].
  exact (first_term_no_plus _ _ Hk Hf H).
Defined.

End QueryMore.

(** * More about a run *)

Section RunMore.
Import Str StrFacts.

Lemma world_ok_map_to_list p g d : world_ok {| Parse := p; Get := g; Decode := d; MapOrder := map_to_list |}.
Proof. intros m. by unfold range. Qed.

(** X9: a run makes no request when the options do not parse, and
    otherwise exactly one, to the base URI followed by [/repositories?] and
    a query that [queryString] returns for the parsed options. *)
Theorem exec_requests w :
  world_ok w →
  match Parse w with
  | inl opts =>
      ∃ q, queryString opts q
           ∧ Requests (main w).2 = [GitHubAPIURI opts +:+ "/repositories?" +:+ q]
  | inr _ => Requests (main w).2 = []
  end.
Proof.
  intros Hw. rewrite main_outcome. unfold outcome_of.
  destruct (Parse w) as [opts|[[] msg|msg]]; try done.
  destruct (uri_of_queryString w opts Hw) as (q & Hq & Hu).
  exists q. split; [done|]. rewrite <-Hu.
  destruct (Get w (uri_of w opts)) as [body|?]; [|done].
  by destruct (Decode w body).
Qed.

(** X9 at the default options. *)
Lemma exec_requests_witness :
  world_ok world_two_items
  ∧ ∃ q, queryString defaults q
         ∧ Requests (main world_two_items).2
           = [GitHubAPIURI defaults +:+ "/repositories?" +:+ q].
Proof.
  assert (Hw : world_ok world_two_items) by apply world_ok_map_to_list.
  split; [exact Hw|]. exact (exec_requests world_two_items Hw).
Defined.

(** X10: a run ends with status 0 and an empty error stream, or with status 1
    and a diagnostic on the error stream, and then nothing has reached
    standard output and no tab writer exists. *)
Theorem exit_status_streams w :
  ((main w).1 = 0 ∧ Stderr (main w).2 = "")
  ∨ ((main w).1 = 1 ∧ Stderr (main w).2 ≠ "" ∧ no_rows (main w).2).
Proof.
  rewrite main_outcome. destruct (outcome_of w); cbn [fst snd Stderr];
    [by left| right; (split; [done|]); (split; [|done]) ..|by left].
  - by intros [[_ H]%app_eq_nil _]%app_eq_nil.
  - by rewrite ?app_cons.
  - by rewrite ?app_cons.
Qed.

(** X11: when the options do not parse, no request is made and no tab
    writer is made. For a request for help the run ends with status 0, the
    usage text that the option parser printed on standard output and
    nothing on the error stream; for any other error it ends with status 1,
    nothing on standard output and, on the error stream, the error as the
    option parser printed it and then the diagnostic of [exec]. *)
Theorem parse_error_run w err :
  Parse w = inr err →
  Requests (main w).2 = []
  ∧ TabWriter (main w).2 = None
  ∧ (∀ msg, err = FlagsError ErrHelp msg →
       (main w).1 = 0
       ∧ Stderr (main w).2 = ""
       ∧ Stdout (main w).2 = msg +:+ NL)
  ∧ ((∀ msg, err ≠ FlagsError ErrHelp msg) →
       (main w).1 = 1
       ∧ Stdout (main w).2 = ""
       ∧ Stderr (main w).2
         = Error err +:+ NL +:+ "error in parsing options: " +:+ Error err +:+ NL).
Proof.
  intros Hp. rewrite main_outcome. unfold outcome_of, parse_error_text.
  rewrite Hp. unfold diagnostic.
  destruct err as [[] m|m]; cbn [fst snd Stderr Stdout Requests TabWriter Error];
    (split; [done|]); (split; [done|]);
    (split; [intros msg [= <-] || intros msg [=]|
             intros Hn; try (by destruct (Hn m))]);
    try done; by rewrite !app_assoc.
Qed.

(** X11 at a request for help and at a flag that does not exist. *)
Lemma parse_error_run_witness :
  Parse world_help = inr (FlagsError ErrHelp "Usage: git-search [OPTIONS] [KEYWORD]")
  ∧ (main world_help).1 = 0
  ∧ Stderr (main world_help).2 = ""
  ∧ Stdout (main world_help).2 = "Usage: git-search [OPTIONS] [KEYWORD]" +:+ NL
  ∧ Requests (main world_help).2 = []
  ∧ Parse world_unknown_flag = inr unknown_flag
  ∧ (main world_unknown_flag).1 = 1
  ∧ Stdout (main world_unknown_flag).2 = "".
Proof.
  assert (Hp : Parse world_help
               = inr (FlagsError ErrHelp "Usage: git-search [OPTIONS] [KEYWORD]"))
    by reflexivity.
  assert (Hq : Parse world_unknown_flag = inr unknown_flag) by reflexivity.
  assert (Hn : ∀ msg, unknown_flag ≠ FlagsError ErrHelp msg) by done.
  destruct (parse_error_run world_help _ Hp) as (H1 & _ & H2 & _).
  destruct (H2 _ eq_refl) as (H3 & H4 & H5).
  destruct (parse_error_run world_unknown_flag _ Hq) as (_ & _ & _ & H6).
  destruct (H6 Hn) as (H7 & H8 & _).
  split; [exact Hp|]. split; [exact H3|]. split; [exact H4|].
  split; [exact H5|]. split; [exact H1|]. split; [exact Hq|].
  split; [exact H7|exact H8].
Defined.

(** X12: shortening twice is shortening once, and the short form is never
    longer than the language. *)
Theorem shortenLanguage_idempotent lang :
  shortenLanguage (shortenLanguage lang) = shortenLanguage lang
  ∧ (String.length (shortenLanguage lang) ≤ String.length lang)%nat.
Proof.
  destruct (decide (lang = "Emacs Lisp")) as [->|H1];
    [vm_compute; split; [done|lia]|].
  destruct (decide (lang = "JavaScript")) as [->|H2];
    [vm_compute; split; [done|lia]|].
  destruct (decide (lang = "CoffeeScript")) as [->|H3];
    [vm_compute; split; [done|lia]|].
  assert (Hid : shortenLanguage lang = lang).
  { unfold shortenLanguage. by rewrite !decide_False. }
  by rewrite !Hid.
Qed.

(** A byte that is in no short form and not in the language is not in the
    shortened language. *)
Lemma mem_shortenLanguage c lang :
  mem c "elispJSCoffee" = false → mem c lang = false →
  mem c (shortenLanguage lang) = false.
Proof.
  intros Hc Hl. unfold shortenLanguage.
  repeat apply mem_cons_false in Hc as [? Hc].
  repeat case_decide; try done; simpl; by rewrite ?decide_False.
Qed.

Lemma count_byte_self c : count (String c "") (String c "") = 1%nat.
Proof. simpl. by rewrite decide_True. Qed.

(** The occurrences of a byte in a row, when the printed fields do not
    have it and it is no bracket and in no short form: those of the
    separators and of the line break. *)
Lemma count_row c opts item :
  mem c "[]elispJSCoffee" = false → item_without c item →
  count (String c "") (row opts item)
  = ((if decide (Language opts = "") then count (String c "") TAB else 0)
     + count (String c "") TAB + count (String c "") NL)%nat.
Proof.
  intros Hc (Hl & Hf & Hd). apply mem_cons_false in Hc as [Hc1 Hc].
  apply mem_cons_false in Hc as [Hc2 Hc].
  pose proof (mem_shortenLanguage c _ Hc Hl) as Hs. unfold row.
  destruct (decide (Language opts = "")).
  - rewrite !count_byte_app, (count_no_head c _ (shortenLanguage _)),
      (count_no_head c _ (Item.FullName item)),
      (count_no_head c _ (Item.Description item)) by done.
    rewrite !count_cons_ne by done. simpl count at 1 2. lia.
  - rewrite !count_byte_app, (count_no_head c _ (Item.FullName item)),
      (count_no_head c _ (Item.Description item)) by done.
    simpl count at 1. lia.
Qed.

Lemma count_rows c opts items n :
  (∀ item, item_without c item → count (String c "") (row opts item) = n) →
  Forall (item_without c) items →
  count (String c "") (rows opts items) = (length items * n)%nat.
Proof.
  intros Hrow. induction 1 as [|item items Hi _ IH]; [done|].
  cbn [rows length]. rewrite count_byte_app, IH, (Hrow _ Hi). lia.
Qed.

(** X13: on success, when no printed field of an item has a line break,
    the text written has exactly one line for each item. *)
Theorem rows_line_count w opts r :
  outcome_of w = Success opts r →
  Forall (item_without "010") (Items r) →
  count NL (Stdout (main w).2) = length (Items r).
Proof.
  intros Hw Hi. rewrite main_outcome, Hw. cbn [snd Stdout]. unfold NL.
  rewrite (count_rows "010" opts _ 1); [lia| |done].
  intros item Hitem. rewrite count_row by done.
  unfold TAB, NL. by destruct (decide (Language opts = "")).
Qed.

(** X13 at a response with two items. *)
Lemma rows_line_count_witness :
  outcome_of world_two_items = Success defaults two_items
  ∧ Forall (item_without "010") (Items two_items)
  ∧ count NL (Stdout (main world_two_items).2) = 2%nat.
Proof.
  assert (Hw : outcome_of world_two_items = Success defaults two_items)
    by reflexivity.
  assert (Hi : Forall (item_without "010") (Items two_items)).
  { repeat constructor. }
  split; [exact Hw|]. split; [exact Hi|].
  exact (rows_line_count world_two_items defaults two_items Hw Hi).
Defined.

(** X14: on success, when no printed field of an item has a tab, every
    line has the same number of separators: two when the caller gave no
    language filter, one when the caller gave one. *)
Theorem rows_separator_count w opts r :
  outcome_of w = Success opts r →
  Forall (item_without "009") (Items r) →
  Forall (λ item, count TAB (row opts item)
                  = if decide (Language opts = "") then 2%nat else 1%nat)
    (Items r)
  ∧ count TAB (Stdout (main w).2)
    = (length (Items r) * (if decide (Language opts = "") then 2 else 1))%nat.
Proof.
  intros Hw Hi.
  assert (Hrow : ∀ item, item_without "009" item →
            count TAB (row opts item)
            = if decide (Language opts = "") then 2%nat else 1%nat).
  { intros item Hitem. unfold TAB at 1. rewrite count_row by done.
    unfold TAB, NL. by destruct (decide (Language opts = "")). }
  split.
  - eapply Forall_impl; [exact Hi|]. exact Hrow.
  - rewrite main_outcome, Hw. cbn [snd Stdout].
    by apply (count_rows "009").
Qed.

(** X14 at a response with two items. *)
Lemma rows_separator_count_witness :
  outcome_of world_two_items = Success defaults two_items
  ∧ Forall (item_without "009") (Items two_items)
  ∧ count TAB (Stdout (main world_two_items).2) = 4%nat.
Proof.
  assert (Hw : outcome_of world_two_items = Success defaults two_items)
    by reflexivity.
  assert (Hi : Forall (item_without "009") (Items two_items)).
  { repeat constructor. }
  split; [exact Hw|]. split; [exact Hi|].
  exact (proj2 (rows_separator_count world_two_items defaults two_items Hw Hi)).
Defined.

Lemma rows_lines opts f items :
  (∀ item, row opts item = f item) → rows opts items = lines f items.
Proof. intros Hf. induction items as [|item items IH]; [done|]. simpl. by rewrite Hf, IH. Qed.

(** X15: the language filter acts on the request and on the output of a
    successful run together: without it the query requested has no
    [language] term and the text written is, for each item, the bracket with
    the shortened language, the full name and the description; with it the
    query has the one term [language:<value>] and the text written is, for
    each item, the full name and the description only. *)
Theorem language_filter_run w opts r :
  world_ok w → outcome_of w = Success opts r →
  ∃ ord, range (vals opts) ord
    ∧ Requests (main w).2
      = [GitHubAPIURI opts +:+ "/repositories?" +:+ join "&" (params ord opts)]
    ∧ (Language opts = "" →
         with_key "language" ord = []
         ∧ Stdout (main w).2
           = lines (λ item, "[" +:+ shortenLanguage (Item.Language item) +:+ "]"
                            +:+ TAB +:+ Item.FullName item +:+ TAB
                            +:+ Item.Description item +:+ NL) (Items r))
    ∧ (Language opts ≠ "" →
         with_key "language" ord = [("language", Language opts)]
         ∧ Stdout (main w).2
           = lines (λ item, Item.FullName item +:+ TAB
                            +:+ Item.Description item +:+ NL) (Items r)).
Proof.
  intros Hw Ho. rewrite main_outcome, Ho. cbn [snd Requests Stdout].
  exists (MapOrder w (vals opts)). split; [apply Hw|]. split.
  { unfold uri_of. by rewrite (queryString_at_params _ _ (Hw _)). }
  rewrite (with_key_slot opts _ "language" _ _ (Hw _) eq_refl).
  split; intros Hl.
  - rewrite bool_decide_eq_false_2 by (by intros Hn). split; [done|].
    apply rows_lines. intros item. unfold row. rewrite decide_True by done.
    by rewrite !app_assoc.
  - rewrite bool_decide_eq_true_2 by done. split; [done|].
    apply rows_lines. intros item. unfold row. by rewrite decide_False.
Qed.

(** X15 at the keyword [foo] and the language [Go]. *)
Lemma language_filter_run_witness :
  world_ok world_foo_Go
  ∧ outcome_of world_foo_Go = Success foo_Go two_items
  ∧ Language foo_Go ≠ ""
  ∧ Requests (main world_foo_Go).2
    = ["https://api.github.com/search/repositories?q=foo+language:Go"]
  ∧ Stdout (main world_foo_Go).2
    = "a/b" +:+ TAB +:+ "d" +:+ NL +:+ "c/d" +:+ TAB +:+ "" +:+ NL.
Proof.
  assert (Hw : world_ok world_foo_Go) by apply world_ok_map_to_list.
  assert (Ho : outcome_of world_foo_Go = Success foo_Go two_items)
    by reflexivity.
  assert (Hl : Language foo_Go ≠ "") by done.
  destruct (language_filter_run _ _ _ Hw Ho) as (ord & Hr & Hq & _ & H2).
  destruct (H2 Hl) as [Ht Hs].
  split; [exact Hw|]. split; [exact Ho|]. split; [exact Hl|].
  split; [reflexivity|exact Hs].
Defined.

End RunMore.

Section QueryStrings.
Import Str StrFacts.

(** X16: each string filter gives one term with its value as it is when
    the value is not empty and none when it is empty; the archived flag
    gives the term [archived:true] when set and none otherwise, so
    [archived:false] is never written. *)
Theorem string_filters o out :
  queryString o out →
  ∃ ord, range (vals o) ord
    ∧ out = join "&" (params ord o)
    ∧ with_key "created" ord = string_term "created" (Created o)
    ∧ with_key "pushed" ord = string_term "pushed" (Pushed o)
    ∧ with_key "fork" ord = string_term "fork" (Fork o)
    ∧ with_key "language" ord = string_term "language" (Language o)
    ∧ with_key "license" ord = string_term "license" (License o)
    ∧ with_key "org" ord = string_term "org" (Org o)
    ∧ with_key "user" ord = string_term "user" (Username o)
    ∧ with_key "topic" ord = string_term "topic" (Topic o)
    ∧ with_key "archived" ord
      = (if Archived o then [("archived", "true")] else []).
Proof.
  intros (ord & Hr & ->). exists ord. split; [done|].
  split; [by apply queryString_at_params|]. unfold string_term.
  rewrite (with_key_slot o ord "created" _ _ Hr eq_refl).
  rewrite (with_key_slot o ord "pushed" _ _ Hr eq_refl).
  rewrite (with_key_slot o ord "fork" _ _ Hr eq_refl).
  rewrite (with_key_slot o ord "language" _ _ Hr eq_refl).
  rewrite (with_key_slot o ord "license" _ _ Hr eq_refl).
  rewrite (with_key_slot o ord "org" _ _ Hr eq_refl).
  rewrite (with_key_slot o ord "user" _ _ Hr eq_refl).
  rewrite (with_key_slot o ord "topic" _ _ Hr eq_refl).
  rewrite (with_key_slot o ord "archived" _ _ Hr eq_refl).
  by repeat split; case_bool_decide; case_decide.
Qed.

(** X16 at every string filter and the archived flag set. *)
Lemma string_filters_witness :
  queryString all_strings (queryString_run all_strings)
  ∧ ∃ ord, range (vals all_strings) ord
    ∧ queryString_run all_strings = join "&" (params ord all_strings)
    ∧ with_key "fork" ord = [("fork", "only")]
    ∧ with_key "archived" ord = [("archived", "true")].
Proof.
  assert (H : queryString all_strings (queryString_run all_strings)).
  { exists (map_to_list (vals all_strings)). split; [by unfold range|done]. }
  destruct (string_filters _ _ H) as (ord & Hr & Ho & _ & _ & Hf & _ & _ & _ & _ & _ & Ha).
  split; [exact H|]. exists ord. split; [exact Hr|]. split; [exact Ho|].
  split; [exact Hf|exact Ha].
Defined.

End QueryStrings.
